(** * geopandas.geoseries: the geometry-typed Series

    A shallow embedding of [geopandas/geoseries.py].  Python objects live in
    an explicit heap; every method is a computation in a small state and
    exception monad.  The libraries the module calls (shapely, pyproj, fiona,
    pandas) are collaborators: shapely and pyproj are interfaces (type
    classes), the part of pandas that [GeoSeries] inherits is modelled in
    [Module pandas] with the hooks pandas calls back through
    ([_constructor], [__finalize__] and the methods a subclass overrides)
    left open, as in the Python class hierarchy. *)

From Stdlib Require Import ZArith List Bool Lia.
From stdpp Require Import base list strings sorting.

Local Open Scope Z_scope.

(** ** Python outcomes *)

Inductive exn :=
| TypeError | ValueError | AttributeError | KeyError | IndexError | SystemError.

Inductive outcome (A : Type) :=
| Ret (a : A)
| Raise (e : exn).
Arguments Ret {A} a.
Arguments Raise {A} e.

(** ** Collaborators *)

(** shapely: geometries are opaque handles. *)
Class Shapely := {
  geometry : Type;
  (** [BaseGeometry()], the geometry without coordinates *)
  BaseGeometry : geometry;
  (** the property read [g.is_empty]; a property may raise *)
  is_empty : geometry -> outcome bool;
  (** [g.equals(h)] *)
  equals : geometry -> geometry -> bool;
  coord : Type;
  (** [shapely.ops.transform(func, g)] on a geometry *)
  transform : (coord * coord -> coord * coord) -> geometry -> geometry;
  BaseGeometry_is_empty : is_empty BaseGeometry = Ret true
}.

(** pyproj and fiona.crs: descriptors of reference systems are opaque. *)
Class Pyproj `{Shapely} := {
  crs_t : Type;
  proj_t : Type;
  (** [pyproj.Proj(crs, preserve_units=True)] *)
  Proj : crs_t -> outcome proj_t;
  (** the mapping [from_epsg] builds for a positive code *)
  epsg_crs : Z -> crs_t;
  _PYPROJ2 : bool;
  (** [pyproj.Transformer.from_proj(p, q).transform] *)
  Transformer_from_proj : proj_t -> proj_t -> coord * coord -> coord * coord;
  (** [partial(pyproj.transform, p, q)] *)
  pyproj_transform : proj_t -> proj_t -> coord * coord -> coord * coord
}.

(** ** Values, Series objects and the heap *)

Section Objects.
Context `{Pyproj}.

(** The values a Series of this development holds. *)
Inductive pyval :=
| PNone
| PNaN
| PBool (b : bool)
| PInt (z : Z)
| PStr (s : string)
| PGeom (g : geometry).

Inductive cls := Series_cls | GeoSeries_cls.

Inductive dtype := dt_object | dt_float64 | dt_int64 | dt_bool.

Definition dtype_eqb (a b : dtype) : bool :=
  match a, b with
  | dt_object, dt_object | dt_float64, dt_float64
  | dt_int64, dt_int64 | dt_bool, dt_bool => true
  | _, _ => false
  end.

(** A Series object: its class, the pandas state, and the attributes
    [GeoSeries] adds ([crs]; the cache of the spatial index).  An attribute
    that is absent reads as [None], which is what [getattr(o, a, None)]
    gives. *)
Record series := mkSeries {
  klass : cls;
  values : list pyval;
  index : list Z;
  name : option string;
  dtype_of : dtype;
  crs : option crs_t;
  _sindex : option (list nat);
  _sindex_generated : bool
}.

(** What a method returns: a scalar or a reference to an object. *)
Inductive pyres :=
| RVal (v : pyval)
| RObj (l : nat).

End Objects.

(** Objects are addressed by their position in the heap. *)
Abbreviation loc := nat (only parsing).
Abbreviation heap := (list series) (only parsing).

(** ** The monad of Python computations *)

Section Monad.
Context `{Pyproj}.

Definition Py (A : Type) : Type := heap -> outcome A * heap.

Definition ret {A} (a : A) : Py A := fun h => (Ret a, h).
Definition raise {A} (e : exn) : Py A := fun h => (Raise e, h).
Definition bind {A B} (m : Py A) (k : A -> Py B) : Py B :=
  fun h => match m h with
           | (Ret a, h') => k a h'
           | (Raise e, h') => (Raise e, h')
           end.
Definition lift {A} (o : outcome A) : Py A := fun h => (o, h).

(** [object.__new__]: a new object at a fresh address. *)
Definition alloc (o : series) : Py loc := fun h => (Ret (length h), h ++ [o]).
Definition load (l : loc) : Py series :=
  fun h => match h !! l with
           | Some o => (Ret o, h)
           | None => (Raise SystemError, h)
           end.
(** attribute assignment *)
Definition update (l : loc) (f : series -> series) : Py unit :=
  fun h => match h !! l with
           | Some o => (Ret tt, <[l := f o]> h)
           | None => (Raise SystemError, h)
           end.

End Monad.

Notation "x <- m ;; k" := (bind m (fun x => k))
  (at level 100, m at next level, right associativity).
Notation "m ;;; k" := (bind m (fun _ => k))
  (at level 100, right associativity).

(** Attribute setters. *)
Section Setters.
Context `{Pyproj}.

Definition set_klass (c : cls) (o : series) : series :=
  mkSeries c (values o) (index o) (name o) (dtype_of o) (crs o)
           (_sindex o) (_sindex_generated o).
Definition set_values (v : list pyval) (o : series) : series :=
  mkSeries (klass o) v (index o) (name o) (dtype_of o) (crs o)
           (_sindex o) (_sindex_generated o).
Definition set_name (n : option string) (o : series) : series :=
  mkSeries (klass o) (values o) (index o) n (dtype_of o) (crs o)
           (_sindex o) (_sindex_generated o).
Definition set_crs (c : option crs_t) (o : series) : series :=
  mkSeries (klass o) (values o) (index o) (name o) (dtype_of o) c
           (_sindex o) (_sindex_generated o).
Definition set_sindex (s : option (list nat)) (g : bool) (o : series) : series :=
  mkSeries (klass o) (values o) (index o) (name o) (dtype_of o) (crs o) s g.

End Setters.

(** ** pandas: the part of [Series] that [GeoSeries] inherits *)

(** What a Series is built from: a scalar, a list, or an array that has a
    dtype already. *)
Inductive pydata `{Pyproj} :=
| DScalar (v : pyval)
| DList (l : list pyval)
| DArray (dt : dtype) (l : list pyval).

Inductive how := join_inner | join_outer | join_left | join_right.

(** A [__getitem__] key: one label, or a slice [start:stop]. *)
Inductive key :=
| KLabel (k : Z)
| KSlice (start stop : option Z).

(** The index algorithms of pandas, by their contracts.  [nargsort] gives the
    positions in sorted order; [Index_join] gives the rows of the joined
    index, each with the position it comes from on either side (pandas
    returns the three columns as [join_index, lidx, ridx], with -1 for an
    absent position). *)
Class PandasIndex := {
  nargsort : list Z -> list nat;
  nargsort_perm : forall l, Permutation (nargsort l) (seq 0 (length l));
  Index_join : how -> list Z -> list Z -> list (Z * option nat * option nat);
  Index_join_lookup : forall h l r lab i j,
    In (lab, i, j) (Index_join h l r) ->
    (forall p, i = Some p -> l !! p = Some lab) /\
    (forall q, j = Some q -> r !! q = Some lab)
}.

(** ** numpy: the two array functions the module calls *)

Module np.
Section Model.
Context `{Pyproj}.

(** Python truth of a value; a geometry is true when it is not empty. *)
Definition truth (v : pyval) : outcome bool :=
  match v with
  | PNone => Ret false
  | PNaN => Ret true
  | PBool b => Ret b
  | PInt z => Ret (negb (z =? 0))
  | PStr s => Ret (negb (bool_decide (s = EmptyString)))
  | PGeom g => match is_empty g with
               | Ret b => Ret (negb b)
               | Raise e => Raise e
               end
  end.

(** [a or b] *)
Definition or_ (a b : pyval) : outcome pyval :=
  match truth a with
  | Raise e => Raise e
  | Ret true => Ret a
  | Ret false => Ret b
  end.

(** [np.logical_or] on two arrays of one length *)
Fixpoint logical_or (a b : list pyval) : outcome (list pyval) :=
  match a, b with
  | [], [] => Ret []
  | x :: a', y :: b' =>
    match or_ x y with
    | Raise e => Raise e
    | Ret z => match logical_or a' b' with
               | Raise e => Raise e
               | Ret zs => Ret (z :: zs)
               end
    end
  | _, _ => Raise ValueError
  end.

(** [np.any] *)
Fixpoint any (a : list pyval) : outcome bool :=
  match a with
  | [] => Ret false
  | x :: a' =>
    match truth x with
    | Raise e => Raise e
    | Ret true => Ret true
    | Ret false => any a'
    end
  end.

End Model.
End np.

Module pandas.
Section Model.
Context `{Pyproj} `{PandasIndex}.

(** [pd.isna] on a scalar *)
Definition isna (v : pyval) : bool :=
  match v with PNone | PNaN => true | _ => false end.

Definition is_int (v : pyval) : bool :=
  match v with PInt _ => true | _ => false end.
Definition is_bool (v : pyval) : bool :=
  match v with PBool _ => true | _ => false end.
Definition is_number (v : pyval) : bool :=
  match v with PInt _ | PNaN => true | _ => false end.

(** The dtype pandas infers for a list of values: an empty list is float64,
    integers are int64, booleans are bool, numbers with missing values are
    float64, and anything else is kept as Python objects. *)
Definition infer_dtype (l : list pyval) : dtype :=
  match l with
  | [] => dt_float64
  | _ =>
    if forallb is_int l then dt_int64
    else if forallb is_bool l then dt_bool
    else if forallb (fun v => is_number v || isna v) l && existsb is_number l
         then dt_float64
    else dt_object
  end.

Definition RangeIndex (n : nat) : list Z := map Z.of_nat (seq 0 n).

(** Data of length one is repeated over a longer index; any other
    disagreement of the lengths is a [ValueError]. *)
Definition broadcast (l : list pyval) (dt : dtype) (idx : option (list Z))
  : outcome (list pyval * dtype) :=
  match idx with
  | None => Ret (l, dt)
  | Some i =>
    if (length l =? length i)%nat then Ret (l, dt)
    else match l with
         | [v] => Ret (replicate (length i) v, dt)
         | _ => Raise ValueError
         end
  end.

Definition sanitize (data : pydata) (idx : option (list Z))
  : outcome (list pyval * dtype) :=
  match data with
  | DScalar PNone =>
    match idx with
    | None => Ret ([], dt_float64)
    | Some i => Ret (replicate (length i) PNaN, dt_float64)
    end
  | DScalar v =>
    let n := match idx with None => 1%nat | Some i => length i end in
    Ret (replicate n v, infer_dtype [v])
  | DList l => broadcast l (infer_dtype l) idx
  | DArray dt l => broadcast l dt idx
  end.

(** [object.__new__(cls)] *)
Definition object_new (c : cls) : Py loc :=
  alloc (mkSeries c [] [] None dt_object None None false).

(** [Series.__init__(self, data, index=index, name=name)] *)
Definition __init__ (self : loc) (data : pydata) (idx : option (list Z))
           (nm : option string) : Py unit :=
  vd <- lift (sanitize data idx) ;;
  let labels := match idx with
                | Some i => i
                | None => RangeIndex (length (fst vd))
                end in
  update self (fun o =>
    mkSeries (klass o) (fst vd) labels nm (snd vd) (crs o)
             (_sindex o) (_sindex_generated o)).

(** [Series(data, index=index, name=name)] *)
Definition Series (data : pydata) (idx : option (list Z)) (nm : option string)
  : Py loc :=
  self <- object_new Series_cls ;;
  __init__ self data idx nm ;;;
  ret self.

(** [Series.__finalize__]: [_metadata] is [['name']]. *)
Definition __finalize__ (self other : loc) : Py loc :=
  o <- load other ;;
  update self (set_name (name o)) ;;;
  ret self.

(** [s.astype(object)] *)
Definition astype_object (s : loc) : Py loc :=
  o <- load s ;;
  r <- Series (DArray dt_object (values o)) (Some (index o)) (name o) ;;
  ret r.

(** What a method gives when an object is expected. *)
Definition as_obj (r : pyres) : Py loc :=
  match r with
  | RObj l => ret l
  | RVal _ => raise AttributeError
  end.

(** Python's [start:stop] on a sequence of length [n], step 1. *)
Definition slice_bound (n : Z) (x : option Z) (default : Z) : Z :=
  match x with
  | None => default
  | Some v => if v <? 0 then Z.max 0 (v + n) else Z.min v n
  end.

Definition slice {A} (start stop : option Z) (l : list A) : list A :=
  let n := Z.of_nat (length l) in
  let a := slice_bound n start 0 in
  let b := slice_bound n stop n in
  firstn (Z.to_nat (b - a)) (skipn (Z.to_nat a) l).

(** The position a (possibly negative) index of [take] denotes. *)
Definition take_position (n : nat) (i : Z) : outcome nat :=
  if (- Z.of_nat n <=? i) && (i <? Z.of_nat n)
  then Ret (Z.to_nat (if i <? 0 then i + Z.of_nat n else i))
  else Raise IndexError.

Fixpoint mapM {A B} (f : A -> outcome B) (l : list A) : outcome (list B) :=
  match l with
  | [] => Ret []
  | x :: t =>
    match f x with
    | Raise e => Raise e
    | Ret y => match mapM f t with
               | Raise e => Raise e
               | Ret ys => Ret (y :: ys)
               end
    end
  end.

(** [arr.take(positions)] for positions in range *)
Definition gather {A} (l : list A) (ps : list nat) : outcome (list A) :=
  mapM (fun p => match l !! p with
                 | Some x => Ret x
                 | None => Raise IndexError
                 end) ps.

(** The positions of the label [k]. *)
Definition get_loc (k : Z) (idx : list Z) : list nat :=
  map fst (filter (fun p => bool_decide (snd p = k)) (imap pair idx)).

(** The hooks pandas calls back through: the class attribute [_constructor]
    and the methods a subclass overrides. *)
Variable _constructor : cls -> pydata -> option (list Z) -> option string -> Py loc.
Variable v__finalize__ : loc -> loc -> Py loc.
Variable v_fillna : loc -> pyval -> Py pyres.
Variable v_copy : loc -> Py loc.

(** [Series.__getitem__] *)
Definition __getitem__ (self : loc) (k : key) : Py pyres :=
  o <- load self ;;
  match k with
  | KLabel lab =>
    match get_loc lab (index o) with
    | [] => raise KeyError
    | [p] => match values o !! p with
             | Some v => ret (RVal v)
             | None => raise KeyError
             end
    | ps =>
      vs <- lift (gather (values o) ps) ;;
      r <- _constructor (klass o) (DArray (dtype_of o) vs)
             (Some (replicate (length vs) lab)) None ;;
      r' <- v__finalize__ r self ;;
      ret (RObj r')
    end
  | KSlice a b =>
    r <- _constructor (klass o) (DArray (dtype_of o) (slice a b (values o)))
           (Some (slice a b (index o))) None ;;
    r' <- v__finalize__ r self ;;
    ret (RObj r')
  end.

(** [Series.take] *)
Definition take (self : loc) (indices : list Z) : Py pyres :=
  o <- load self ;;
  ps <- lift (mapM (take_position (length (index o))) indices) ;;
  new_index <- lift (gather (index o) ps) ;;
  new_values <- lift (gather (values o) ps) ;;
  r <- _constructor (klass o) (DArray (dtype_of o) new_values)
         (Some new_index) None ;;
  r' <- v__finalize__ r self ;;
  ret (RObj r').

(** [Series.sort_index] (ascending, not in place) *)
Definition sort_index (self : loc) : Py pyres :=
  o <- load self ;;
  let indexer := nargsort (index o) in
  new_index <- lift (gather (index o) indexer) ;;
  new_values <- lift (gather (values o) indexer) ;;
  r <- _constructor (klass o) (DArray (dtype_of o) new_values)
         (Some new_index) None ;;
  r' <- v__finalize__ r self ;;
  ret (RObj r').

(** [Series.apply(func)]: an empty Series gives an empty Series of its
    dtype; otherwise [func] is mapped over the values (an exception of
    [func] goes through) and the dtype of the result is inferred. *)
Definition apply (self : loc) (func : pyval -> outcome pyval) : Py loc :=
  o <- load self ;;
  match values o with
  | [] =>
    r <- _constructor (klass o) (DArray (dtype_of o) []) (Some (index o)) None ;;
    v__finalize__ r self
  | _ =>
    mapped <- lift (mapM func (values o)) ;;
    r <- _constructor (klass o) (DArray (infer_dtype mapped) mapped)
           (Some (index o)) None ;;
    v__finalize__ r self
  end.

(** [Series.isnull] *)
Definition isnull (self : loc) : Py loc :=
  o <- load self ;;
  r <- _constructor (klass o)
         (DArray dt_bool (map (fun v => PBool (isna v)) (values o)))
         (Some (index o)) None ;;
  v__finalize__ r self.

(** [Series.fillna(value=value, method=None, inplace=inplace)]: the missing
    values, as [pd.isna] sees them, are replaced. *)
Definition fillna (self : loc) (value : pyval) (inplace : bool) : Py pyres :=
  match value with
  | PNone => raise ValueError
  | _ =>
    o <- load self ;;
    let new_data := map (fun v => if isna v then value else v) (values o) in
    if inplace then
      update self (set_values new_data) ;;;
      ret (RVal PNone)
    else
      r <- _constructor (klass o) (DArray (dtype_of o) new_data)
             (Some (index o)) None ;;
      r' <- v__finalize__ r self ;;
      ret (RObj r')
  end.

(** [take_1d(values, indexer, allow_fill=True)]: -1 gives NaN. *)
Definition take_1d (l : list pyval) (indexer : list (option nat))
  : outcome (list pyval) :=
  mapM (fun i => match i with
                 | None => Ret PNaN
                 | Some p => match l !! p with
                             | Some x => Ret x
                             | None => Raise IndexError
                             end
                 end) indexer.

(** [Series._reindex_indexer(new_index, indexer, copy)] with an indexer *)
Definition _reindex_indexer (self : loc) (new_index : list Z)
           (indexer : list (option nat)) : Py loc :=
  o <- load self ;;
  new_values <- lift (take_1d (values o) indexer) ;;
  _constructor (klass o) (DArray (dtype_of o) new_values) (Some new_index) None.

(** [Series.align(other, join=join, fill_value=fill_value)]: equal indexes
    are copied, others are joined and both sides reindexed; then each side
    is filled through its own [fillna] when the fill value is not missing. *)
Definition align (self other : loc) (join : how) (fill_value : pyval)
  : Py (loc * loc) :=
  so <- load self ;;
  oo <- load other ;;
  lr <- (if bool_decide (index so = index oo) then
           l <- v_copy self ;;
           r <- v_copy other ;;
           ret (l, r)
         else
           let rows := Index_join join (index so) (index oo) in
           let join_index := map (fun row => fst (fst row)) rows in
           l <- _reindex_indexer self join_index
                  (map (fun row => snd (fst row)) rows) ;;
           r <- _reindex_indexer other join_index (map snd rows) ;;
           ret (l, r)) ;;
  lr' <- (if negb (isna fill_value) then
            l <- (x <- v_fillna (fst lr) fill_value ;; as_obj x) ;;
            r <- (x <- v_fillna (snd lr) fill_value ;; as_obj x) ;;
            ret (l, r)
          else ret lr) ;;
  left <- v__finalize__ (fst lr') self ;;
  right <- v__finalize__ (snd lr') other ;;
  ret (left, right).

(** [Series.copy] *)
Definition copy (self : loc) : Py loc :=
  o <- load self ;;
  r <- _constructor (klass o) (DArray (dtype_of o) (values o))
         (Some (index o)) None ;;
  v__finalize__ r self.

(** [~x] on one element: the logical negation in an array of booleans, the
    Python operator on an object. *)
Definition invert_value (dt : dtype) (v : pyval) : outcome pyval :=
  match dt, v with
  | dt_bool, PBool b => Ret (PBool (negb b))
  | _, PBool b => Ret (PInt (if b then -2 else -1))
  | _, PInt z => Ret (PInt (- z - 1))
  | _, _ => Raise TypeError
  end.

(** [Series.__invert__] *)
Definition __invert__ (self : loc) : Py loc :=
  o <- load self ;;
  arr <- lift (mapM (invert_value (dtype_of o)) (values o)) ;;
  r <- _constructor (klass o) (DArray (dtype_of o) arr) (Some (index o)) None ;;
  v__finalize__ r self.

(** [np.logical_or(a, b)] on two Series: the arrays are combined and the
    result is wrapped by the first operand ([__array_wrap__]). *)
Definition logical_or (a b : loc) : Py loc :=
  ao <- load a ;;
  bo <- load b ;;
  result <- lift (np.logical_or (values ao) (values bo)) ;;
  let dt := if dtype_eqb (dtype_of ao) dt_object
               || dtype_eqb (dtype_of bo) dt_object
            then dt_object else dt_bool in
  r <- _constructor (klass ao) (DArray dt result) (Some (index ao)) None ;;
  v__finalize__ r a.

End Model.
End pandas.

(** ** geopandas.base: what [GeoSeries] uses of [GeoPandasBase] *)

Module GeoPandasBase.
Section Model.
Context `{Pyproj} `{PandasIndex}.

(** Modelled from the spec: [GeoPandasBase._invalidate_sindex], of
    geopandas/base.py, which is not among the sources.  The spec has the
    cached spatial index of an object invalidated, to be rebuilt on the
    next use: the cache is dropped and marked as not generated. *)
Definition _invalidate_sindex (self : loc) : Py unit :=
  update self (set_sindex None false).

(** Modelled from the spec: [GeoPandasBase.geom_equals], of
    geopandas/base.py, which is not among the sources.  Position by
    position, whether the element is geometrically equal to [other]; a
    missing element is equal to no geometry. *)
Definition geom_equals (self : loc) (other : geometry) : Py loc :=
  o <- load self ;;
  pandas.Series
    (DArray dt_bool
       (map (fun v => PBool match v with
                            | PGeom g => equals g other
                            | _ => false
                            end) (values o)))
    (Some (index o)) None.

End Model.
End GeoPandasBase.

(** ** geopandas.geoseries *)

(** [fiona.crs.from_epsg]: [int(code)] of [None] is a [TypeError], a code
    that is not positive a [ValueError]. *)
Definition from_epsg `{Pyproj} (code : option Z) : outcome crs_t :=
  match code with
  | None => Raise TypeError
  | Some c => if c <=? 0 then Raise ValueError else Ret (epsg_crs c)
  end.

(** [shapely.ops.transform(func, geom)] begins by reading [geom.is_empty],
    an attribute only a geometry has. *)
Definition shapely_ops_transform `{Pyproj}
           (func : coord * coord -> coord * coord) (geom : pyval)
  : outcome pyval :=
  match geom with
  | PGeom g => Ret (PGeom (transform func g))
  | _ => Raise AttributeError
  end.

Definition _is_empty `{Pyproj} (x : pyval) : bool :=
  match (match x with
         | PGeom g => is_empty g
         | _ => Raise AttributeError
         end) with
  | Ret b => b
  | Raise _ => false
  end.

Definition isinstance_BaseGeometry `{Pyproj} (item : pyval) : bool :=
  match item with PGeom _ => true | _ => false end.

Definition _validate_geometry_data `{Pyproj} (data : list pyval) : outcome unit :=
  if negb (forallb (fun item => isinstance_BaseGeometry item || pandas.isna item)
                   data)
  then Raise TypeError
  else Ret tt.

Module GeoSeries.
Section Model.
Context `{Pyproj} `{PandasIndex}.

Import GeoPandasBase.

(** [GeoSeries.__new__(cls, data, index, crs, name=name)].  The other
    keyword arguments, which go to the [Series] constructor as they are,
    are left out. *)
Definition __new__ (data : pydata) (idx : option (list Z))
           (crs : option crs_t) (nm : option string) : Py loc :=
  let data :=
    match data with
    | DScalar (PGeom g) =>
      let n := match idx with Some i => length i | None => 1%nat end in
      DList (replicate n (PGeom g))
    | _ => data
    end in
  let build (s : loc) : Py loc :=
    so <- load s ;;
    match _validate_geometry_data (values so) with
    | Raise TypeError => ret s
    | Raise e => raise e
    | Ret _ =>
      self <- pandas.object_new GeoSeries_cls ;;
      pandas.__init__ self (DArray (dtype_of so) (values so))
        (Some (index so)) (name so) ;;;
      update self (set_crs crs) ;;;
      _invalidate_sindex self ;;;
      ret self
    end in
  s <- pandas.Series data idx nm ;;
  so <- load s ;;
  if negb (dtype_eqb (dtype_of so) dt_object) then
    match index so with
    | [] => s' <- pandas.astype_object s ;; build s'
    | _ => ret s
    end
  else build s.

(** [GeoSeries.__finalize__]: [_metadata] is [['name', 'crs']]. *)
Definition __finalize__ (self other : loc) : Py loc :=
  o <- load other ;;
  update self (set_name (name o)) ;;;
  update self (set_crs (crs o)) ;;;
  ret self.

(** The class attribute [_constructor]: [Series] for a Series, [GeoSeries]
    for a GeoSeries. *)
Definition _constructor (c : cls) (data : pydata) (idx : option (list Z))
           (nm : option string) : Py loc :=
  match c with
  | Series_cls => pandas.Series data idx nm
  | GeoSeries_cls => __new__ data idx None nm
  end.

(** [r.__finalize__(other)], by the class of [r]. *)
Definition v__finalize__ (r other : loc) : Py loc :=
  o <- load r ;;
  match klass o with
  | Series_cls => pandas.__finalize__ r other
  | GeoSeries_cls => __finalize__ r other
  end.

Definition _wrapped_pandas_method (self : loc) (mtd : loc -> Py pyres)
  : Py pyres :=
  val <- mtd self ;;
  match val with
  | RObj l =>
    vo <- load l ;;
    match klass vo with
    | Series_cls =>
      so <- load self ;;
      update l (set_klass GeoSeries_cls) ;;;
      update l (set_crs (crs so)) ;;;
      _invalidate_sindex l ;;;
      ret val
    | GeoSeries_cls => ret val
    end
  | RVal _ => ret val
  end.

Definition __getitem__ (self : loc) (k : key) : Py pyres :=
  _wrapped_pandas_method self
    (fun s => pandas.__getitem__ _constructor v__finalize__ s k).

Definition sort_index (self : loc) : Py pyres :=
  _wrapped_pandas_method self
    (fun s => pandas.sort_index _constructor v__finalize__ s).

Definition take (self : loc) (indices : list Z) : Py pyres :=
  _wrapped_pandas_method self
    (fun s => pandas.take _constructor v__finalize__ s indices).

Definition copy (self : loc) : Py loc :=
  o <- load self ;;
  r <- __new__ (DArray (dtype_of o) (values o)) (Some (index o)) None (name o) ;;
  v__finalize__ r self.

Definition isna (self : loc) : Py loc :=
  non_geo_null <- pandas.isnull _constructor v__finalize__ self ;;
  val <- pandas.apply _constructor v__finalize__ self
           (fun x => Ret (PBool (_is_empty x))) ;;
  r <- pandas.logical_or _constructor v__finalize__ non_geo_null val ;;
  ro <- load r ;;
  pandas.Series (DArray (dtype_of ro) (values ro)) (Some (index ro)) (name ro).

Definition isnull (self : loc) : Py loc := isna self.

Definition notna (self : loc) : Py loc :=
  r <- isna self ;;
  pandas.__invert__ _constructor v__finalize__ r.

Definition notnull (self : loc) : Py loc := notna self.

Definition fillna (self : loc) (value : pyval) (inplace : bool) : Py pyres :=
  let value := match value with
               | PNone => PGeom BaseGeometry
               | _ => value
               end in
  pandas.fillna _constructor v__finalize__ self value inplace.

(** [x.fillna(value)] and [x.copy()], by the class of [x]. *)
Definition v_fillna (x : loc) (value : pyval) : Py pyres :=
  o <- load x ;;
  match klass o with
  | Series_cls => pandas.fillna _constructor v__finalize__ x value false
  | GeoSeries_cls => fillna x value false
  end.

Definition v_copy (x : loc) : Py loc :=
  o <- load x ;;
  match klass o with
  | Series_cls => pandas.copy _constructor v__finalize__ x
  | GeoSeries_cls => copy x
  end.

Definition align (self other : loc) (join : how) (fill_value : pyval)
  : Py (loc * loc) :=
  let fill_value := match fill_value with
                    | PNone => PGeom BaseGeometry
                    | _ => fill_value
                    end in
  pandas.align _constructor v__finalize__ v_fillna v_copy
    self other join fill_value.

Definition __contains__ (self : loc) (other : pyval) : Py bool :=
  match other with
  | PGeom g =>
    r <- geom_equals self g ;;
    ro <- load r ;;
    lift (np.any (values ro))
  | _ => ret false
  end.

Definition to_crs (self : loc) (crs' : option crs_t) (epsg : option Z)
  : Py loc :=
  so <- load self ;;
  match crs so with
  | None => raise ValueError
  | Some self_crs =>
    crs' <- match crs' with
            | Some c => ret c
            | None => match from_epsg epsg with
                      | Raise TypeError => raise TypeError
                      | Raise e => raise e
                      | Ret c => ret c
                      end
            end ;;
    proj_in <- lift (Proj self_crs) ;;
    proj_out <- lift (Proj crs') ;;
    let project := if _PYPROJ2 then Transformer_from_proj proj_in proj_out
                   else pyproj_transform proj_in proj_out in
    result <- pandas.apply _constructor v__finalize__ self
                (fun geom => shapely_ops_transform project geom) ;;
    update result (set_klass GeoSeries_cls) ;;;
    update result (set_crs (Some crs')) ;;;
    _invalidate_sindex result ;;;
    ret result
  end.

End Model.
End GeoSeries.

(** ** An instance of the collaborators

    A small geometry library on integer coordinates, a projection library
    that knows two reference systems, and the index algorithms by sorting
    and searching.  The examples and the closed statements below run on
    it. *)

Module Toy.

Inductive shape :=
| Empty
| Point (x y : Z)
| LineString (pts : list (Z * Z))
| Closed.

(** [Closed] stands for a handle that has been released: its queries
    raise. *)
Definition shape_is_empty (g : shape) : outcome bool :=
  match g with
  | Empty => Ret true
  | Point _ _ => Ret false
  | LineString pts => Ret (bool_decide (pts = []))
  | Closed => Raise ValueError
  end.

#[global] Instance shape_eq_dec : EqDecision shape.
Proof. solve_decision. Defined.

Definition shape_transform (f : Z * Z -> Z * Z) (g : shape) : shape :=
  match g with
  | Point x y => let p := f (x, y) in Point (fst p) (snd p)
  | LineString pts => LineString (map f pts)
  | _ => g
  end.

#[global, refine] Instance shapely : Shapely := {
  geometry := shape;
  BaseGeometry := Empty;
  is_empty := shape_is_empty;
  equals := fun g h => bool_decide (g = h);
  coord := Z;
  transform := shape_transform
}.
Proof. reflexivity. Defined.

Inductive descriptor :=
| Named (s : string)
| Init (code : Z).

Definition resolve (c : descriptor) : outcome Z :=
  match c with
  | Named "EPSG:4326" => Ret 4326
  | Named "EPSG:3857" => Ret 3857
  | Named _ => Raise ValueError
  | Init code => Ret code
  end.

Definition shift (p q : Z) (xy : Z * Z) : Z * Z :=
  (fst xy + (q - p), snd xy + (q - p)).

#[global] Instance pyproj : Pyproj := {
  crs_t := descriptor;
  proj_t := Z;
  Proj := resolve;
  epsg_crs := Init;
  _PYPROJ2 := true;
  Transformer_from_proj := shift;
  pyproj_transform := shift
}.

(** Positions sorted by label. *)
Definition by_label {A} (a b : Z * A) : Prop := fst a <= fst b.

#[global] Instance by_label_dec {A} (a b : Z * A) : Decision (by_label a b).
Proof. unfold by_label. apply _. Defined.

Definition argsort (l : list Z) : list nat :=
  map snd (merge_sort by_label (imap (fun i x => (x, i)) l)).

(** The first position of a label. *)
Fixpoint find_label (lab : Z) (l : list Z) : option nat :=
  match l with
  | [] => None
  | x :: t => if bool_decide (x = lab) then Some 0%nat
              else option_map S (find_label lab t)
  end.

Definition left_rows (l r : list Z) : list (Z * (option nat * option nat)) :=
  imap (fun i lab => (lab, (Some i, find_label lab r))) l.

Definition right_rows (l r : list Z) : list (Z * (option nat * option nat)) :=
  imap (fun j lab => (lab, (find_label lab l, Some j))) r.

Definition join_rows (h : how) (l r : list Z)
  : list (Z * (option nat * option nat)) :=
  match h with
  | join_left => left_rows l r
  | join_right => right_rows l r
  | join_inner =>
    filter (fun row => is_Some (snd (snd row))) (left_rows l r)
  | join_outer =>
    merge_sort by_label
      (left_rows l r
       ++ filter (fun row => fst (snd row) = None) (right_rows l r))
  end.

Definition join (h : how) (l r : list Z) : list (Z * option nat * option nat) :=
  map (fun row => (fst row, fst (snd row), snd (snd row))) (join_rows h l r).

End Toy.

(** The index algorithms of the instance meet their contracts. *)

Section IndexLaws.
Import Toy.

Lemma imap_snd_seq {A} (l : list A) (k : nat) :
  map snd (imap (fun i x => (x, (k + i)%nat)) l) = seq k (length l).
Proof.
  revert k. induction l as [|a l IH]; intros k; simpl; [reflexivity|].
  rewrite Nat.add_0_r. f_equal.
  rewrite <- (IH (S k)). f_equal. apply imap_ext. intros i x _. simpl.
  f_equal. lia.
Qed.

Lemma argsort_perm (l : list Z) : Permutation (argsort l) (seq 0 (length l)).
Proof.
  unfold argsort. rewrite merge_sort_Permutation.
  rewrite <- (imap_snd_seq l 0). reflexivity.
Qed.

Lemma find_label_lookup (lab : Z) (l : list Z) (p : nat) :
  find_label lab l = Some p -> l !! p = Some lab.
Proof.
  revert p. induction l as [|x t IH]; intros p; simpl; [discriminate|].
  case_bool_decide as Hx.
  - intros [= <-]. simpl. congruence.
  - destruct (find_label lab t) as [q|]; simpl; [|discriminate].
    intros [= <-]. simpl. apply IH. reflexivity.
Qed.

Definition row_ok (l r : list Z) (row : Z * (option nat * option nat)) : Prop :=
  (forall p, fst (snd row) = Some p -> l !! p = Some (fst row)) /\
  (forall q, snd (snd row) = Some q -> r !! q = Some (fst row)).

Lemma left_rows_ok (l r : list Z) : Forall (row_ok l r) (left_rows l r).
Proof.
  apply Forall_forall. intros row Hin. unfold left_rows in Hin.
  apply elem_of_lookup_imap_1 in Hin as (i & lab & -> & Hi).
  split; simpl.
  - intros p [= <-]. exact Hi.
  - intros q Hq. apply find_label_lookup. exact Hq.
Qed.

Lemma right_rows_ok (l r : list Z) : Forall (row_ok l r) (right_rows l r).
Proof.
  apply Forall_forall. intros row Hin. unfold right_rows in Hin.
  apply elem_of_lookup_imap_1 in Hin as (i & lab & -> & Hi).
  split; simpl.
  - intros p Hp. apply find_label_lookup. exact Hp.
  - intros q [= <-]. exact Hi.
Qed.

Lemma join_rows_ok (h : how) (l r : list Z) :
  Forall (row_ok l r) (join_rows h l r).
Proof.
  destruct h; simpl.
  - apply Forall_forall. intros row Hin.
    apply list_elem_of_filter in Hin as [_ Hin].
    revert row Hin. apply Forall_forall, left_rows_ok.
  - rewrite merge_sort_Permutation. apply Forall_app. split.
    + apply left_rows_ok.
    + apply Forall_forall. intros row Hin.
      apply list_elem_of_filter in Hin as [_ Hin].
      revert row Hin. apply Forall_forall, right_rows_ok.
  - apply left_rows_ok.
  - apply right_rows_ok.
Qed.

Lemma join_lookup (h : how) (l r : list Z) lab i j :
  In (lab, i, j) (join h l r) ->
  (forall p, i = Some p -> l !! p = Some lab) /\
  (forall q, j = Some q -> r !! q = Some lab).
Proof.
  unfold join. intros Hin. apply in_map_iff in Hin as (row & Hrow & Hin).
  injection Hrow as <- <- <-.
  pose proof (join_rows_ok h l r) as Hall.
  rewrite Forall_forall in Hall. apply Hall.
  apply list_elem_of_In. exact Hin.
Qed.

End IndexLaws.

#[global] Instance toy_index : PandasIndex := {
  nargsort := Toy.argsort;
  nargsort_perm := argsort_perm;
  Index_join := Toy.join;
  Index_join_lookup := join_lookup
}.

(** * Properties *)

(** ** Running computations on a heap *)

Section Heap.
Context `{Pyproj}.

Lemma lookup_fresh (h k : heap) (n : nat) : (h ++ k) !! (length h + n)%nat = k !! n.
Proof. rewrite lookup_app_r by lia. f_equal. lia. Qed.

Lemma lookup_old (h k : heap) (l : loc) (o : series) :
  h !! l = Some o -> (h ++ k) !! l = Some o.
Proof. intros Hl. apply lookup_app_l_Some. exact Hl. Qed.

Lemma insert_fresh (h k : heap) (n : nat) (o : series) :
  <[(length h + n)%nat := o]> (h ++ k) = h ++ <[n := o]> k.
Proof. apply insert_app_r. Qed.

Lemma bind_ret {A B} (m : Py A) (k : A -> Py B) (h h' : heap) (a : A) :
  m h = (Ret a, h') -> bind m k h = k a h'.
Proof. intros E. unfold bind. rewrite E. reflexivity. Qed.

Lemma bind_raise {A B} (m : Py A) (k : A -> Py B) (h h' : heap) (e : exn) :
  m h = (Raise e, h') -> bind m k h = (Raise e, h').
Proof. intros E. unfold bind. rewrite E. reflexivity. Qed.

Lemma load_old (h k : heap) (l : loc) (o : series) :
  h !! l = Some o -> load l (h ++ k) = (Ret o, h ++ k).
Proof. intros Hl. unfold load. rewrite (lookup_old h k l o Hl). reflexivity. Qed.

Lemma load_here (h : heap) (l : loc) (o : series) :
  h !! l = Some o -> load l h = (Ret o, h).
Proof. intros Hl. unfold load. rewrite Hl. reflexivity. Qed.

Lemma load_fresh (h k : heap) (n : nat) (o : series) :
  k !! n = Some o -> load (length h + n)%nat (h ++ k) = (Ret o, h ++ k).
Proof. intros Hn. unfold load. rewrite lookup_fresh, Hn. reflexivity. Qed.

Lemma update_fresh (h k : heap) (n : nat) (o : series) (f : series -> series) :
  k !! n = Some o ->
  update (length h + n)%nat f (h ++ k) = (Ret tt, h ++ <[n := f o]> k).
Proof.
  intros Hn. unfold update. rewrite lookup_fresh, Hn, insert_fresh. reflexivity.
Qed.

Lemma alloc_app (h k : heap) (o : series) :
  alloc o (h ++ k) = (Ret (length h + length k)%nat, h ++ (k ++ [o])).
Proof. unfold alloc. rewrite length_app, <- app_assoc. reflexivity. Qed.

End Heap.

(** ** The constructors *)

Section Constructors.
Context `{Pyproj} `{PandasIndex}.

Lemma lookup_snoc (h : heap) (o : series) : (h ++ [o]) !! length h = Some o.
Proof. apply list_lookup_middle. reflexivity. Qed.

Lemma load_snoc (h : heap) (o : series) :
  load (length h) (h ++ [o]) = (Ret o, h ++ [o]).
Proof. apply load_here, lookup_snoc. Qed.

Lemma update_snoc (h : heap) (o : series) (f : series -> series) :
  update (length h) f (h ++ [o]) = (Ret tt, h ++ [f o]).
Proof.
  unfold update. rewrite lookup_snoc. f_equal.
  rewrite (insert_app_r_alt h) by lia. rewrite Nat.sub_diag. reflexivity.
Qed.

Lemma alloc_eq (h : heap) (o : series) : alloc o h = (Ret (length h), h ++ [o]).
Proof. reflexivity. Qed.

Definition labels_of (vs : list pyval) (idx : option (list Z)) : list Z :=
  match idx with
  | Some i => i
  | None => pandas.RangeIndex (length vs)
  end.

(** The plain Series that [Series(data, index, name)] builds. *)
Definition plain (vs : list pyval) (labels : list Z) (nm : option string)
           (dt : dtype) : series :=
  mkSeries Series_cls vs labels nm dt None None false.

(** The GeoSeries that [GeoSeries.__new__] builds. *)
Definition geo (vs : list pyval) (labels : list Z) (nm : option string)
           (c : option crs_t) : series :=
  mkSeries GeoSeries_cls vs labels nm dt_object c None false.

(** The elements a GeoSeries admits. *)
Definition valid (vs : list pyval) : bool :=
  forallb (fun item => isinstance_BaseGeometry item || pandas.isna item) vs.

Lemma validate_eq (vs : list pyval) :
  _validate_geometry_data vs = if valid vs then Ret tt else Raise TypeError.
Proof. unfold _validate_geometry_data, valid. destruct (forallb _ vs); reflexivity. Qed.

Lemma init_snoc (data : pydata) (idx : option (list Z)) (nm : option string)
      (vs : list pyval) (dt : dtype) (h : heap) (o : series) :
  pandas.sanitize data idx = Ret (vs, dt) ->
  pandas.__init__ (length h) data idx nm (h ++ [o]) =
  (Ret tt,
   h ++ [mkSeries (klass o) vs (labels_of vs idx) nm dt (crs o)
                  (_sindex o) (_sindex_generated o)]).
Proof.
  intros Hs. unfold pandas.__init__.
  rewrite (bind_ret _ _ (h ++ [o]) (h ++ [o]) (vs, dt)).
  - rewrite update_snoc. destruct idx; reflexivity.
  - unfold lift. rewrite Hs. reflexivity.
Qed.

Lemma Series_eq (data : pydata) (idx : option (list Z)) (nm : option string)
      (vs : list pyval) (dt : dtype) (h : heap) :
  pandas.sanitize data idx = Ret (vs, dt) ->
  pandas.Series data idx nm h =
  (Ret (length h), h ++ [plain vs (labels_of vs idx) nm dt]).
Proof.
  intros Hs. unfold pandas.Series, pandas.object_new.
  rewrite (bind_ret _ _ _ _ _ (alloc_eq h _)).
  rewrite (bind_ret _ _ _ _ tt (init_snoc _ _ _ _ _ h _ Hs)).
  reflexivity.
Qed.

Lemma broadcast_same (vs : list pyval) (dt : dtype) (lab : list Z) :
  length vs = length lab -> pandas.broadcast vs dt (Some lab) = Ret (vs, dt).
Proof.
  intros E. unfold pandas.broadcast. rewrite E, Nat.eqb_refl. reflexivity.
Qed.

Lemma sanitize_array (vs : list pyval) (dt : dtype) (lab : list Z) :
  length vs = length lab ->
  pandas.sanitize (DArray dt vs) (Some lab) = Ret (vs, dt).
Proof. apply broadcast_same. Qed.

Lemma broadcast_length (l : list pyval) (dt dt' : dtype) idx vs :
  pandas.broadcast l dt idx = Ret (vs, dt') ->
  length vs = length (labels_of vs idx) /\ dt' = dt.
Proof.
  unfold pandas.broadcast. destruct idx as [i|]; simpl.
  - destruct (Nat.eqb_spec (length l) (length i)) as [E|E].
    + intros [= <- <-]. auto.
    + destruct l as [|v [|w l]]; try discriminate.
      intros [= <- <-]. rewrite length_replicate. auto.
  - intros [= <- <-]. unfold labels_of, pandas.RangeIndex.
    rewrite length_map, length_seq. auto.
Qed.

Lemma sanitize_length (data : pydata) idx vs dt :
  pandas.sanitize data idx = Ret (vs, dt) ->
  length vs = length (labels_of vs idx).
Proof.
  destruct data as [v|l|dt0 l]; simpl.
  - assert (G : forall n, Ret (replicate (match idx with None => 1%nat | Some i => length i end) v, n) = Ret (vs, dt) ->
              length vs = length (labels_of vs idx)).
    { intros n [= <- <-]. rewrite length_replicate.
      destruct idx; reflexivity. }
    destruct v; try apply G.
    destruct idx as [i|]; intros [= <- <-]; simpl; [|reflexivity].
    apply length_replicate.
  - intros E. apply broadcast_length in E. tauto.
  - intros E. apply broadcast_length in E. tauto.
Qed.

(** The second half of [__new__]: validation, then the new object. *)
Definition build (c : option crs_t) (s : loc) : Py loc :=
  so <- load s ;;
  match _validate_geometry_data (values so) with
  | Raise TypeError => ret s
  | Raise e => raise e
  | Ret _ =>
    self <- pandas.object_new GeoSeries_cls ;;
    pandas.__init__ self (DArray (dtype_of so) (values so))
      (Some (index so)) (name so) ;;;
    update self (set_crs c) ;;;
    GeoPandasBase._invalidate_sindex self ;;;
    ret self
  end.

Lemma build_eq (c : option crs_t) (h : heap) (s : loc) (so : series) :
  h !! s = Some so ->
  length (values so) = length (index so) ->
  build c s h =
  if valid (values so)
  then (Ret (length h),
        h ++ [mkSeries GeoSeries_cls (values so) (index so) (name so)
                       (dtype_of so) c None false])
  else (Ret s, h).
Proof.
  intros Hs Hlen. unfold build.
  rewrite (bind_ret _ _ _ _ _ (load_here h s so Hs)).
  rewrite validate_eq. destruct (valid (values so)); [|reflexivity].
  unfold pandas.object_new.
  rewrite (bind_ret _ _ _ _ _ (alloc_eq h _)).
  rewrite (bind_ret _ _ _ _ tt
             (init_snoc _ _ _ _ _ h _ (sanitize_array _ (dtype_of so) _ Hlen))).
  rewrite (bind_ret _ _ _ _ tt (update_snoc h _ _)).
  unfold GeoPandasBase._invalidate_sindex.
  rewrite (bind_ret _ _ _ _ tt (update_snoc h _ _)).
  reflexivity.
Qed.

Definition not_scalar_geometry (data : pydata) : Prop :=
  match data with
  | DScalar (PGeom _) => False
  | _ => True
  end.

Lemma new_unfold (data : pydata) idx c nm :
  not_scalar_geometry data ->
  GeoSeries.__new__ data idx c nm =
  (s <- pandas.Series data idx nm ;;
   so <- load s ;;
   if negb (dtype_eqb (dtype_of so) dt_object) then
     match index so with
     | [] => s' <- pandas.astype_object s ;; build c s'
     | _ => ret s
     end
   else build c s).
Proof.
  intros Hd. destruct data as [[]| |]; try reflexivity. destruct Hd.
Qed.

End Constructors.

Section NewCases.
Context `{Pyproj} `{PandasIndex}.

Lemma dtype_eqb_object (dt : dtype) :
  dtype_eqb dt dt_object = true <-> dt = dt_object.
Proof. destruct dt; simpl; split; congruence. Qed.

(** Data of object dtype whose elements are all admitted: a GeoSeries. *)
Lemma new_object_valid (data : pydata) idx c nm vs (h : heap) :
  not_scalar_geometry data ->
  pandas.sanitize data idx = Ret (vs, dt_object) ->
  valid vs = true ->
  GeoSeries.__new__ data idx c nm h =
  (Ret (length (h ++ [plain vs (labels_of vs idx) nm dt_object])),
   (h ++ [plain vs (labels_of vs idx) nm dt_object])
     ++ [geo vs (labels_of vs idx) nm c]).
Proof.
  intros Hd Hs Hv. rewrite (new_unfold _ _ _ _ Hd).
  rewrite (bind_ret _ _ _ _ _ (Series_eq _ _ nm _ _ h Hs)).
  rewrite (bind_ret _ _ _ _ _ (load_snoc h _)). cbn [plain dtype_of index]. cbn [negb]. cbv iota.
  rewrite (build_eq c _ _ _ (lookup_snoc h _)).
  - simpl values. rewrite Hv. reflexivity.
  - apply (sanitize_length _ _ _ _ Hs).
Qed.

(** Data that is not of object dtype, or holds an element that is not
    admitted: the plain Series. *)
Lemma new_fallback (data : pydata) idx c nm vs dt (h : heap) :
  not_scalar_geometry data ->
  pandas.sanitize data idx = Ret (vs, dt) ->
  (dt = dt_object /\ valid vs = false) \/
  (dt <> dt_object /\ labels_of vs idx <> []) ->
  GeoSeries.__new__ data idx c nm h =
  (Ret (length h), h ++ [plain vs (labels_of vs idx) nm dt]).
Proof.
  intros Hd Hs Hcase. rewrite (new_unfold _ _ _ _ Hd).
  rewrite (bind_ret _ _ _ _ _ (Series_eq _ _ nm _ _ h Hs)).
  rewrite (bind_ret _ _ _ _ _ (load_snoc h _)). cbn [plain dtype_of index].
  destruct Hcase as [[-> Hv]|[Hdt Hlab]].
  - cbn [negb]. cbv iota.
    rewrite (build_eq c _ _ _ (lookup_snoc h _)).
    + simpl values. rewrite Hv. reflexivity.
    + apply (sanitize_length _ _ _ _ Hs).
  - destruct (dtype_eqb dt dt_object) eqn:E.
    + apply dtype_eqb_object in E. contradiction.
    + cbn [negb]. cbv iota.
      destruct (labels_of vs idx); [contradiction|reflexivity].
Qed.

Lemma astype_object_eq (h : heap) (s : loc) (o : series) :
  h !! s = Some o ->
  length (values o) = length (index o) ->
  pandas.astype_object s h =
  (Ret (length h), h ++ [plain (values o) (index o) (name o) dt_object]).
Proof.
  intros Hs Hlen. unfold pandas.astype_object.
  rewrite (bind_ret _ _ _ _ _ (load_here h s o Hs)).
  rewrite (bind_ret _ _ _ _ _
             (Series_eq _ _ (name o) _ _ h (sanitize_array _ dt_object _ Hlen))).
  reflexivity.
Qed.

(** Empty data that is not of object dtype: cast to object, then a
    GeoSeries. *)
Lemma new_empty (data : pydata) idx c nm vs dt (h : heap) :
  not_scalar_geometry data ->
  pandas.sanitize data idx = Ret (vs, dt) ->
  dt <> dt_object ->
  labels_of vs idx = [] ->
  GeoSeries.__new__ data idx c nm h =
  (Ret (length ((h ++ [plain [] [] nm dt]) ++ [plain [] [] nm dt_object])),
   ((h ++ [plain [] [] nm dt]) ++ [plain [] [] nm dt_object])
     ++ [geo [] [] nm c]).
Proof.
  intros Hd Hs Hdt Hlab. rewrite (new_unfold _ _ _ _ Hd).
  pose proof (sanitize_length _ _ _ _ Hs) as Hlen. rewrite Hlab in Hlen.
  apply nil_length_inv in Hlen. subst vs.
  rewrite (bind_ret _ _ _ _ _ (Series_eq _ _ nm _ _ h Hs)). rewrite Hlab.
  rewrite (bind_ret _ _ _ _ _ (load_snoc h _)). cbn [plain dtype_of index].
  destruct (dtype_eqb dt dt_object) eqn:E.
  { apply dtype_eqb_object in E. contradiction. }
  cbn [negb]. cbv iota.
  rewrite (bind_ret _ _ _ _ _
             (astype_object_eq _ _ _ (lookup_snoc h (plain [] [] nm dt))
                eq_refl)).
  rewrite (build_eq c _ _ _ (lookup_snoc _ _)); reflexivity.
Qed.

End NewCases.

(** ** Construction *)

Section Construction.
Context `{Pyproj} `{PandasIndex}.

(** An element that is neither a geometry nor a missing value. *)
Definition foreign (v : pyval) : bool :=
  negb (isinstance_BaseGeometry v || pandas.isna v).

Lemma valid_foreign (vs : list pyval) : valid vs = negb (existsb foreign vs).
Proof.
  unfold valid, foreign. induction vs as [|v vs IH]; simpl; [reflexivity|].
  rewrite IH, negb_orb, negb_involutive. reflexivity.
Qed.

(** The index fits the data: none is given, or one of the same length. *)
Definition index_fits (vs : list pyval) (idx : option (list Z)) : Prop :=
  match idx with
  | Some i => length i = length vs
  | None => True
  end.

Lemma sanitize_list (vs : list pyval) (idx : option (list Z)) :
  index_fits vs idx ->
  pandas.sanitize (DList vs) idx = Ret (vs, pandas.infer_dtype vs).
Proof.
  intros Hfit. simpl. destruct idx as [i|]; [|reflexivity].
  apply broadcast_same. symmetry. exact Hfit.
Qed.



(** C8, as the code has it: an empty sequence is admitted as it is, and
    the constructor returns an empty GeoSeries that carries the [crs] and
    the name it was given. *)
Theorem empty_data_gives_geoseries
        (idx : option (list Z)) (c : option crs_t) (nm : option string)
        (h : heap) :
  index_fits [] idx ->
  exists (s : loc) (h' : heap) (o : series),
    GeoSeries.__new__ (DList []) idx c nm h = (Ret s, h') /\
    h' !! s = Some o /\
    klass o = GeoSeries_cls /\
    values o = [] /\
    index o = [] /\
    crs o = c /\
    name o = nm.
Proof.
  intros Hfit.
  assert (Hlab : labels_of [] idx = []).
  { destruct idx as [i|]; simpl in *; [|reflexivity].
    apply nil_length_inv. exact Hfit. }
  eexists _, _, (geo [] [] nm c). split; [|split; [apply lookup_snoc|split_and!; try reflexivity]].
  apply new_empty with (vs := []) (dt := dt_float64);
    [exact I|exact (sanitize_list [] idx Hfit)|discriminate|exact Hlab].
Qed.

(** C10: a single geometry is repeated over the index: with an index of
    [n] labels the GeoSeries has [n] elements, each that geometry, at those
    labels; with no index it has the one element, at label 0. *)
Theorem scalar_geometry_is_repeated
        (g : geometry) (idx : option (list Z)) (c : option crs_t)
        (nm : option string) (h : heap) :
  let n := match idx with Some i => length i | None => 1%nat end in
  exists (s : loc) (h' : heap) (o : series),
    GeoSeries.__new__ (DScalar (PGeom g)) idx c nm h = (Ret s, h') /\
    h' !! s = Some o /\
    klass o = GeoSeries_cls /\
    values o = replicate n (PGeom g) /\
    length (values o) = n /\
    index o = match idx with Some i => i | None => [0] end /\
    crs o = c /\
    name o = nm.
Proof.
  intros n.
  change (GeoSeries.__new__ (DScalar (PGeom g)) idx c nm)
    with (GeoSeries.__new__ (DList (replicate n (PGeom g))) idx c nm).
  assert (Hfit : index_fits (replicate n (PGeom g)) idx).
  { subst n. destruct idx as [i|]; simpl; [|exact I].
    rewrite length_replicate. reflexivity. }
  assert (Hlab : labels_of (replicate n (PGeom g)) idx
                 = match idx with Some i => i | None => [0] end).
  { subst n. destruct idx; reflexivity. }
  pose proof (sanitize_list _ _ Hfit) as Hs.
  destruct n as [|m] eqn:En.
  - assert (Hnil : labels_of [] idx = []).
    { destruct idx as [i|]; [|discriminate].
      simpl in *. apply nil_length_inv. exact En. }
    eexists _, _, (geo [] [] nm c).
    split; [|split; [apply lookup_snoc|split_and!; try reflexivity]].
    + apply new_empty with (vs := []) (dt := dt_float64);
        [exact I|exact Hs|discriminate|exact Hnil].
    + rewrite <- Hlab. exact (eq_sym Hnil).
  - eexists _, _, (geo (replicate (S m) (PGeom g))
                        (labels_of (replicate (S m) (PGeom g)) idx) nm c).
    split; [|split; [apply lookup_snoc|split_and!; try reflexivity]].
    + apply new_object_valid; [exact I|exact Hs|].
      unfold valid. apply forallb_forall. intros x Hx.
      apply list_elem_of_In, elem_of_replicate in Hx as [-> _]. reflexivity.
    + simpl. rewrite length_replicate. reflexivity.
    + exact Hlab.
Qed.

End Construction.

(** ** Geometry sequences and what is derived from them *)

Section Derived.
Context `{Pyproj} `{PandasIndex}.

(** The object at [s] is a Geometry Sequence: a GeoSeries, of object dtype,
    with one label per element (I1) and every element a geometry or a
    missing value (I2). *)
Record GeometrySequence (h : heap) (s : loc) (o : series) : Prop := {
  gs_lookup : h !! s = Some o;
  gs_class : klass o = GeoSeries_cls;
  gs_dtype : dtype_of o = dt_object;
  gs_length : length (values o) = length (index o);
  gs_valid : valid (values o) = true
}.

(** The heap after a Series of [self] has been derived: the plain Series
    the constructor goes through, and the GeoSeries with the metadata of
    [self]. *)
Definition derived (h : heap) (vs : list pyval) (lab : list Z) (o : series)
  : heap :=
  (h ++ [plain vs lab None dt_object]) ++ [geo vs lab (name o) (crs o)].

Lemma derived_lookup (h : heap) vs lab o :
  derived h vs lab o !! S (length h) = Some (geo vs lab (name o) (crs o)).
Proof.
  unfold derived. replace (S (length h)) with (length (h ++ [plain vs lab None dt_object])).
  - apply lookup_snoc.
  - rewrite length_app. simpl. lia.
Qed.

Lemma derived_old (h : heap) vs lab o (l : loc) (x : series) :
  h !! l = Some x -> derived h vs lab o !! l = Some x.
Proof. intros Hl. unfold derived. apply lookup_old, lookup_old, Hl. Qed.

Lemma finalize_geo (h : heap) (self : loc) (o g : series) :
  h !! self = Some o ->
  klass g = GeoSeries_cls ->
  GeoSeries.v__finalize__ (length h) self (h ++ [g]) =
  (Ret (length h), h ++ [set_crs (crs o) (set_name (name o) g)]).
Proof.
  intros Hs Hk. unfold GeoSeries.v__finalize__.
  rewrite (bind_ret _ _ _ _ _ (load_snoc h g)). rewrite Hk.
  unfold GeoSeries.__finalize__.
  rewrite (bind_ret _ _ _ _ _ (load_old h [g] self o Hs)).
  rewrite (bind_ret _ _ _ _ tt (update_snoc h _ _)).
  rewrite (bind_ret _ _ _ _ tt (update_snoc h _ _)).
  reflexivity.
Qed.

Lemma finalize_plain (h : heap) (self : loc) (o p : series) :
  h !! self = Some o ->
  klass p = Series_cls ->
  GeoSeries.v__finalize__ (length h) self (h ++ [p]) =
  (Ret (length h), h ++ [set_name (name o) p]).
Proof.
  intros Hs Hk. unfold GeoSeries.v__finalize__.
  rewrite (bind_ret _ _ _ _ _ (load_snoc h p)). rewrite Hk.
  unfold pandas.__finalize__.
  rewrite (bind_ret _ _ _ _ _ (load_old h [p] self o Hs)).
  rewrite (bind_ret _ _ _ _ tt (update_snoc h _ _)).
  reflexivity.
Qed.

(** [self._constructor(values, index=labels).__finalize__(self)] for
    admitted values. *)
Lemma derive_eq (h : heap) (self : loc) (o : series) vs lab :
  h !! self = Some o ->
  length vs = length lab ->
  valid vs = true ->
  (r <- GeoSeries._constructor GeoSeries_cls (DArray dt_object vs) (Some lab) None ;;
   GeoSeries.v__finalize__ r self) h =
  (Ret (S (length h)), derived h vs lab o).
Proof.
  intros Hs Hlen Hv. unfold GeoSeries._constructor.
  rewrite (bind_ret _ _ _ _ _
             (new_object_valid (DArray dt_object vs) (Some lab) None None vs h I
                (sanitize_array _ _ _ Hlen) Hv)).
  simpl labels_of.
  rewrite (finalize_geo _ self o (geo vs lab None None)
             (lookup_old h _ _ _ Hs) eq_refl).
  unfold derived. f_equal. f_equal. rewrite length_app. simpl. lia.
Qed.

Lemma derive_then {A} (h : heap) (self : loc) (o : series) vs lab
      (k : loc -> Py A) :
  h !! self = Some o ->
  length vs = length lab ->
  valid vs = true ->
  (r <- GeoSeries._constructor GeoSeries_cls (DArray dt_object vs) (Some lab) None ;;
   r' <- GeoSeries.v__finalize__ r self ;;
   k r') h =
  k (S (length h)) (derived h vs lab o).
Proof.
  intros Hs Hlen Hv.
  pose proof (derive_eq h self o vs lab Hs Hlen Hv) as E.
  unfold bind in *.
  destruct (GeoSeries._constructor GeoSeries_cls (DArray dt_object vs) (Some lab) None h)
    as [[r|e] h1]; [|discriminate].
  rewrite E. reflexivity.
Qed.

(** A method of pandas that gave a GeoSeries is returned as it is. *)
Lemma wrapped_geo (h h' : heap) (self r : loc) (ro : series)
      (mtd : loc -> Py pyres) :
  mtd self h = (Ret (RObj r), h') ->
  h' !! r = Some ro ->
  klass ro = GeoSeries_cls ->
  GeoSeries._wrapped_pandas_method self mtd h = (Ret (RObj r), h').
Proof.
  intros Hm Hr Hk. unfold GeoSeries._wrapped_pandas_method.
  rewrite (bind_ret _ _ _ _ _ Hm).
  rewrite (bind_ret _ _ _ _ _ (load_here h' r ro Hr)). rewrite Hk.
  reflexivity.
Qed.

End Derived.

(** ** Reprojection without a reference system; membership *)

Section Queries.
Context `{Pyproj} `{PandasIndex}.

(** C4: on an object whose [crs] is unset, [to_crs] raises [ValueError]
    whatever the destination, and the heap is as it was: no Series has
    been made. *)
Theorem to_crs_unset_raises
        (h : heap) (s : loc) (o : series)
        (crs' : option crs_t) (epsg : option Z) :
  h !! s = Some o ->
  crs o = None ->
  GeoSeries.to_crs s crs' epsg h = (Raise ValueError, h).
Proof.
  intros Hs Hc. unfold GeoSeries.to_crs.
  rewrite (bind_ret _ _ _ _ _ (load_here h s o Hs)). rewrite Hc.
  reflexivity.
Qed.

(** Whether an element is a geometry equal to [g]. *)
Definition equal_to (g : geometry) (v : pyval) : bool :=
  match v with
  | PGeom e => equals e g
  | _ => false
  end.

Lemma any_bools (bs : list bool) : np.any (map PBool bs) = Ret (existsb id bs).
Proof.
  induction bs as [|b bs IH]; simpl; [reflexivity|].
  destruct b; simpl; [reflexivity|exact IH].
Qed.

Lemma existsb_id_map {A} (f : A -> bool) (l : list A) :
  existsb id (map f l) = existsb f l.
Proof. induction l as [|x l IH]; simpl; [reflexivity|]. rewrite IH. reflexivity. Qed.

Lemma existsb_lookup {A} (f : A -> bool) (l : list A) :
  existsb f l = true <-> exists i x, l !! i = Some x /\ f x = true.
Proof.
  rewrite existsb_exists. split.
  - intros (x & Hin & Hf). apply list_elem_of_In, list_elem_of_lookup in Hin as [i Hi].
    exists i, x. auto.
  - intros (i & x & Hi & Hf). exists x. split; [|exact Hf].
    apply list_elem_of_In, list_elem_of_lookup. exists i. exact Hi.
Qed.

Lemma geom_equals_eq (h : heap) (s : loc) (o : series) (g : geometry) :
  h !! s = Some o ->
  length (values o) = length (index o) ->
  GeoPandasBase.geom_equals s g h =
  (Ret (length h),
   h ++ [plain (map (fun v => PBool (equal_to g v)) (values o)) (index o)
               None dt_bool]).
Proof.
  intros Hs Hlen. unfold GeoPandasBase.geom_equals.
  rewrite (bind_ret _ _ _ _ _ (load_here h s o Hs)).
  apply (Series_eq _ (Some (index o))), sanitize_array.
  rewrite length_map. exact Hlen.
Qed.

(** C9: [other in s] returns, and it is true exactly when [other] is a
    geometry and some element of [s] is a geometry that [equals] it; so it
    is false for a value that is not a geometry.  The Series of the
    comparisons is the only new object. *)
Theorem contains_is_some_element_equal
        (h : heap) (s : loc) (o : series) (other : pyval) :
  GeometrySequence h s o ->
  exists (b : bool) (h' : heap),
    GeoSeries.__contains__ s other h = (Ret b, h') /\
    h `prefix_of` h' /\
    (b = true <->
     exists g i e, other = PGeom g /\
                   values o !! i = Some (PGeom e) /\ equals e g = true).
Proof.
  intros [Hs _ _ Hlen _].
  destruct other as [| | | | |g];
    try (exists false, h; split; [reflexivity|]; split; [reflexivity|];
         split; [discriminate|]; intros (g & _ & _ & E & _); discriminate).
  unfold GeoSeries.__contains__.
  exists (existsb (equal_to g) (values o)). eexists. split; [|split].
  - rewrite (bind_ret _ _ _ _ _ (geom_equals_eq h s o g Hs Hlen)).
    rewrite (bind_ret _ _ _ _ _ (load_snoc h _)). unfold lift.
    cbn [plain values].
    rewrite <- (map_map (equal_to g) PBool), any_bools, existsb_id_map.
    reflexivity.
  - apply prefix_app_r. reflexivity.
  - rewrite existsb_lookup. split.
    + intros (i & x & Hi & Hx). destruct x as [| | | | |e]; try discriminate.
      exists g, i, e. auto.
    + intros (g' & i & e & [= <-] & Hi & He). exists i, (PGeom e). auto.
Qed.

End Queries.

(** The values of the instance. *)
Definition shape_val (g : Toy.shape) : pyval := @PGeom Toy.shapely g.

(** A heap of the instance: a GeoSeries of three points without [crs]. *)
Definition three_points : list series :=
  [geo [shape_val (Toy.Point 1 1); shape_val (Toy.Point 2 2);
        shape_val (Toy.Point 3 3)]
       [0; 1; 2] None None].

Lemma to_crs_unset_raises_witness :
  GeoSeries.to_crs 0%nat (Some (Toy.Named "EPSG:3857")) None three_points
  = (Raise ValueError, three_points).
Proof.
  apply (to_crs_unset_raises three_points 0%nat
           (geo [shape_val (Toy.Point 1 1); shape_val (Toy.Point 2 2);
                 shape_val (Toy.Point 3 3)] [0; 1; 2] None None));
    reflexivity.
Defined.

(** ** What pandas hands back to a subclass *)

Section Hooks.
Context `{Pyproj} `{PandasIndex}.

Lemma bind_assoc {A B C} (m : Py A) (f : A -> Py B) (g : B -> Py C) (h : heap) :
  bind (bind m f) g h = bind m (fun x => bind (f x) g) h.
Proof. unfold bind. destruct (m h) as [[a|e] h']; reflexivity. Qed.

(** Whether [c(values, index=labels)] is a GeoSeries: the class is
    [GeoSeries], and the values are of object dtype and admitted, or are
    of another dtype and empty. *)
Definition gives_geoseries (c : cls) (dt : dtype) (vs : list pyval)
           (lab : list Z) : bool :=
  match c with
  | Series_cls => false
  | GeoSeries_cls =>
    if dtype_eqb dt dt_object then valid vs
    else match lab with [] => true | _ => false end
  end.

(** The object that [c(values, index=labels).__finalize__(self)] is. *)
Definition finalized (c : cls) (dt : dtype) (vs : list pyval) (lab : list Z)
           (o : series) : series :=
  if gives_geoseries c dt vs lab
  then geo vs lab (name o) (crs o)
  else plain vs lab (name o) dt.

Lemma construct_finalize (h : heap) (self : loc) (o : series) (c : cls)
      (dt : dtype) (vs : list pyval) (lab : list Z) :
  h !! self = Some o ->
  length vs = length lab ->
  exists (r : loc) (h' : heap),
    (r <- GeoSeries._constructor c (DArray dt vs) (Some lab) None ;;
     GeoSeries.v__finalize__ r self) h = (Ret r, h') /\
    h `prefix_of` h' /\
    h !! r = None /\
    h' !! r = Some (finalized c dt vs lab o).
Proof.
  intros Hs Hlen. pose proof (sanitize_array vs dt lab Hlen) as Hsan.
  unfold finalized, gives_geoseries. destruct c.
  - (* Series *)
    exists (length h), (h ++ [plain vs lab (name o) dt]).
    split; [|split; [apply prefix_app_r; reflexivity|split]].
    + unfold GeoSeries._constructor.
      rewrite (bind_ret _ _ _ _ _ (Series_eq _ _ None _ _ h Hsan)).
      apply (finalize_plain h self o (plain vs lab None dt) Hs eq_refl).
    + apply lookup_ge_None. lia.
    + apply lookup_snoc.
  - (* GeoSeries *)
    unfold GeoSeries._constructor.
    destruct (dtype_eqb dt dt_object) eqn:Edt.
    + apply dtype_eqb_object in Edt. subst dt.
      destruct (valid vs) eqn:Ev.
      * exists (S (length h)), (derived h vs lab o).
        split; [|split; [|split]].
        -- apply derive_eq; assumption.
        -- unfold derived. rewrite <- app_assoc. apply prefix_app_r. reflexivity.
        -- apply lookup_ge_None. lia.
        -- apply derived_lookup.
      * exists (length h), (h ++ [plain vs lab (name o) dt_object]).
        split; [|split; [apply prefix_app_r; reflexivity|split]].
        -- rewrite (bind_ret _ _ _ _ _
                      (new_fallback (DArray dt_object vs) (Some lab) None None
                         vs dt_object h I Hsan (or_introl (conj eq_refl Ev)))).
           apply (finalize_plain h self o (plain vs lab None dt_object) Hs
                    eq_refl).
        -- apply lookup_ge_None. lia.
        -- apply lookup_snoc.
    + assert (Hdt : dt <> dt_object).
      { intros E. apply dtype_eqb_object in E. congruence. }
      destruct lab as [|z lab].
      * set (h2 := (h ++ [plain [] [] None dt]) ++ [plain [] [] None dt_object]).
        exists (length h2), (h2 ++ [geo [] [] (name o) (crs o)]).
        apply nil_length_inv in Hlen. subst vs.
        split; [|split; [|split]].
        -- rewrite (bind_ret _ _ _ _ _
                      (new_empty (DArray dt []) (Some []) None None [] dt h I
                         Hsan Hdt eq_refl)).
           apply (finalize_geo h2 self o (geo [] [] None None)); [|reflexivity].
           apply lookup_old, lookup_old, Hs.
        -- unfold h2. rewrite <- !app_assoc. apply prefix_app_r. reflexivity.
        -- apply lookup_ge_None. unfold h2. rewrite !length_app. lia.
        -- apply lookup_snoc.
      * assert (Hne : labels_of vs (Some (z :: lab)) <> []) by discriminate.
        exists (length h), (h ++ [plain vs (z :: lab) (name o) dt]).
        split; [|split; [apply prefix_app_r; reflexivity|split]].
        -- rewrite (bind_ret _ _ _ _ _
                      (new_fallback (DArray dt vs) (Some (z :: lab)) None None
                         vs dt h I Hsan (or_intror (conj Hdt Hne)))).
           apply (finalize_plain h self o (plain vs (z :: lab) None dt) Hs
                    eq_refl).
        -- apply lookup_ge_None. lia.
        -- apply lookup_snoc.
Qed.

End Hooks.

(** ** Selecting positions *)

Section Positions.
Context `{Pyproj} `{PandasIndex}.

(** [l'] holds the elements of [l] at the positions [ps], in that order. *)
Definition at_positions {A} (l : list A) (ps : list nat) (l' : list A) : Prop :=
  Forall2 (fun p x => l !! p = Some x) ps l'.

Lemma mapM_Ret {A B} (f : A -> outcome B) (g : A -> B) (l : list A) :
  Forall (fun x => f x = Ret (g x)) l -> pandas.mapM f l = Ret (map g l).
Proof.
  induction 1 as [|x l Hx _ IH]; simpl; [reflexivity|].
  rewrite Hx, IH. reflexivity.
Qed.

Lemma gather_ok {A} (l : list A) (ps : list nat) :
  Forall (fun p => (p < length l)%nat) ps ->
  exists l', pandas.gather l ps = Ret l' /\ at_positions l ps l'.
Proof.
  unfold pandas.gather, at_positions.
  induction 1 as [|p ps Hp _ (l' & E & F)]; simpl.
  - exists []. split; [reflexivity|constructor].
  - apply lookup_lt_is_Some in Hp as [x Hx]. rewrite Hx, E.
    exists (x :: l'). split; [reflexivity|constructor; assumption].
Qed.

Lemma at_positions_length {A} (l : list A) ps l' :
  at_positions l ps l' -> length l' = length ps.
Proof. intros F. symmetry. exact (Forall2_length _ _ _ F). Qed.

Lemma at_positions_elem {A} (l : list A) ps l' x :
  at_positions l ps l' -> x ∈ l' -> x ∈ l.
Proof.
  induction 1 as [|p y ps l' Hp _ IH]; intros Hx.
  - inversion Hx.
  - apply elem_of_cons in Hx as [->|Hx]; [|exact (IH Hx)].
    apply list_elem_of_lookup. exists p. exact Hp.
Qed.

Lemma valid_at_positions (vs : list pyval) ps vs' :
  valid vs = true -> at_positions vs ps vs' -> valid vs' = true.
Proof.
  unfold valid. intros Hv F. apply forallb_forall. intros x Hx.
  rewrite forallb_forall in Hv. apply Hv.
  apply list_elem_of_In. apply (at_positions_elem vs ps vs').
  - exact F.
  - apply list_elem_of_In. exact Hx.
Qed.

Lemma at_positions_seq {A} (l : list A) (a n : nat) :
  (a + n <= length l)%nat ->
  at_positions l (seq a n) (firstn n (skipn a l)).
Proof.
  unfold at_positions. revert a. induction n as [|n IH]; intros a Hle; simpl.
  - constructor.
  - destruct (lookup_lt_is_Some_2 l a) as [x Hx]; [lia|].
    rewrite (drop_S l x a Hx). simpl. constructor; [exact Hx|].
    apply IH. lia.
Qed.

(** The positions that [start:stop] selects in a sequence of length [n]. *)
Definition slice_positions (n : nat) (start stop : option Z) : list nat :=
  let a := pandas.slice_bound (Z.of_nat n) start 0 in
  let b := pandas.slice_bound (Z.of_nat n) stop (Z.of_nat n) in
  seq (Z.to_nat a) (Z.to_nat (b - a)).

Lemma slice_bound_range (n : Z) (x : option Z) (d : Z) :
  0 <= n -> 0 <= d <= n -> 0 <= pandas.slice_bound n x d <= n.
Proof.
  intros Hn Hd. unfold pandas.slice_bound. destruct x as [v|]; [|exact Hd].
  destruct (Z.ltb_spec v 0); lia.
Qed.

Lemma slice_at_positions {A} (l : list A) (start stop : option Z) :
  at_positions l (slice_positions (length l) start stop)
               (pandas.slice start stop l).
Proof.
  unfold slice_positions, pandas.slice. apply at_positions_seq.
  pose proof (slice_bound_range (Z.of_nat (length l)) start 0) as Ha.
  pose proof (slice_bound_range (Z.of_nat (length l)) stop (Z.of_nat (length l))) as Hb.
  lia.
Qed.

Lemma slice_length {A B} (l : list A) (l' : list B) (start stop : option Z) :
  length l = length l' ->
  length (pandas.slice start stop l) = length (pandas.slice start stop l').
Proof.
  intros E.
  rewrite (at_positions_length _ _ _ (slice_at_positions l start stop)).
  rewrite (at_positions_length _ _ _ (slice_at_positions l' start stop)).
  rewrite E. reflexivity.
Qed.

End Positions.

(** ** Derived operations keep the metadata *)

Section DerivedOperations.
Context `{Pyproj} `{PandasIndex}.

(** The operations that select elements of a Series with their labels. *)
Inductive derived_op :=
| op_slice (start stop : option Z)
| op_take (indices : list Z)
| op_sort_index
| op_copy.

Definition run_op (op : derived_op) (s : loc) : Py pyres :=
  match op with
  | op_slice a b => GeoSeries.__getitem__ s (KSlice a b)
  | op_take indices => GeoSeries.take s indices
  | op_sort_index => GeoSeries.sort_index s
  | op_copy => r <- GeoSeries.copy s ;; ret (RObj r)
  end.

(** The position an index of [take] denotes in a sequence of length [n]. *)
Definition take_pos (n : nat) (i : Z) : nat :=
  Z.to_nat (if i <? 0 then i + Z.of_nat n else i).

(** The positions of the receiver that the result holds, in order. *)
Definition positions (op : derived_op) (o : series) : list nat :=
  match op with
  | op_slice a b => slice_positions (length (index o)) a b
  | op_take indices => map (take_pos (length (index o))) indices
  | op_sort_index => nargsort (index o)
  | op_copy => seq 0 (length (index o))
  end.

(** [take] needs its indices within the bounds; the others need nothing. *)
Definition op_defined (op : derived_op) (o : series) : Prop :=
  match op with
  | op_take indices =>
    Forall (fun i => - Z.of_nat (length (index o)) <= i
                     < Z.of_nat (length (index o))) indices
  | _ => True
  end.

Lemma derived_method (h : heap) (s : loc) (o : series) vs lab
      (mtd : loc -> Py pyres) :
  GeometrySequence h s o ->
  length vs = length lab ->
  valid vs = true ->
  mtd s h =
  (r <- GeoSeries._constructor GeoSeries_cls (DArray dt_object vs) (Some lab) None ;;
   r' <- GeoSeries.v__finalize__ r s ;;
   ret (RObj r')) h ->
  GeoSeries._wrapped_pandas_method s mtd h =
  (Ret (RObj (S (length h))), derived h vs lab o).
Proof.
  intros [Hs _ _ _ _] Hlen Hv Hm.
  rewrite (derive_then h s o vs lab _ Hs Hlen Hv) in Hm.
  apply (wrapped_geo h _ s _ (geo vs lab (name o) (crs o)) mtd Hm).
  - apply derived_lookup.
  - reflexivity.
Qed.

(** What the theorem says of the result [ro] at [r] of an operation on the
    Geometry Sequence [o] at [s] that selects the positions [ps]. *)
Definition derived_from (h h' : heap) (s r : loc) (o ro : series)
           (ps : list nat) : Prop :=
  h !! r = None /\
  h' !! s = Some o /\
  GeometrySequence h' r ro /\
  crs ro = crs o /\
  name ro = name o /\
  at_positions (index o) ps (index ro) /\
  at_positions (values o) ps (values ro) /\
  _sindex ro = None /\
  _sindex_generated ro = false.

Lemma derived_is_derived_from (h : heap) (s : loc) (o : series) vs lab ps
      (nm : option string) :
  GeometrySequence h s o ->
  at_positions (index o) ps lab ->
  at_positions (values o) ps vs ->
  derived_from h ((h ++ [plain vs lab nm dt_object])
                    ++ [geo vs lab (name o) (crs o)])
               s (S (length h)) o (geo vs lab (name o) (crs o)) ps.
Proof.
  intros [Hs Hk Hd Hlen Hv] Hlab Hvs.
  assert (Hr : ((h ++ [plain vs lab nm dt_object])
                  ++ [geo vs lab (name o) (crs o)]) !! S (length h)
               = Some (geo vs lab (name o) (crs o))).
  { replace (S (length h)) with (length (h ++ [plain vs lab nm dt_object])).
    - apply lookup_snoc.
    - rewrite length_app. simpl. lia. }
  unfold derived_from. split_and!; try reflexivity; try assumption.
  - apply lookup_ge_None. lia.
  - apply lookup_old, lookup_old, Hs.
  - constructor; try reflexivity; try assumption.
    + simpl. rewrite (at_positions_length _ _ _ Hlab).
      apply (at_positions_length _ _ _ Hvs).
    + simpl. apply (valid_at_positions _ _ _ Hv Hvs).
Qed.

Lemma take_pos_ok (n : nat) (indices : list Z) :
  Forall (fun i => - Z.of_nat n <= i < Z.of_nat n) indices ->
  pandas.mapM (pandas.take_position n) indices = Ret (map (take_pos n) indices)
  /\ Forall (fun p => (p < n)%nat) (map (take_pos n) indices).
Proof.
  intros Hall. split.
  - apply mapM_Ret. eapply Forall_impl; [exact Hall|].
    intros i Hi. cbv beta in Hi. unfold pandas.take_position, take_pos.
    destruct (Z.leb_spec (- Z.of_nat n) i); [|lia].
    destruct (Z.ltb_spec i (Z.of_nat n)); [|lia]. reflexivity.
  - apply Forall_map. eapply Forall_impl; [exact Hall|].
    intros i Hi. cbv beta in Hi. unfold take_pos. simpl.
    destruct (Z.ltb_spec i 0); lia.
Qed.

Lemma at_positions_all {A} (l : list A) : at_positions l (seq 0 (length l)) l.
Proof.
  pose proof (at_positions_seq l 0 (length l)) as P. simpl in P.
  rewrite firstn_all in P. apply P. lia.
Qed.

Lemma nargsort_bounds (l : list Z) :
  Forall (fun p => (p < length l)%nat) (nargsort l).
Proof.
  rewrite (nargsort_perm l). apply Forall_forall. intros p Hp.
  apply elem_of_seq in Hp. lia.
Qed.

(** C1: a slice, a [take], a sort by label and a copy of a Geometry
    Sequence return a new object that is again a Geometry Sequence, with
    the [crs] and the name of the receiver, with the labels and the
    elements of the receiver at the positions the operation selects, and
    with no cached spatial index.  The receiver is as it was. *)
Theorem derived_operations_keep_metadata
        (h : heap) (s : loc) (o : series) (op : derived_op) :
  GeometrySequence h s o ->
  op_defined op o ->
  exists (r : loc) (h' : heap) (ro : series),
    run_op op s h = (Ret (RObj r), h') /\
    derived_from h h' s r o ro (positions op o).
Proof.
  intros Hgs Hdef. pose proof Hgs as [Hs Hk Hd Hlen Hv].
  assert (Hsel : forall ps lab vs (mtd : loc -> Py pyres),
             at_positions (index o) ps lab ->
             at_positions (values o) ps vs ->
             mtd s h =
             (r <- GeoSeries._constructor GeoSeries_cls (DArray dt_object vs)
                    (Some lab) None ;;
              r' <- GeoSeries.v__finalize__ r s ;;
              ret (RObj r')) h ->
             exists (r : loc) (h' : heap) (ro : series),
               GeoSeries._wrapped_pandas_method s mtd h = (Ret (RObj r), h') /\
               derived_from h h' s r o ro ps).
  { intros ps lab vs mtd Hlab Hvs Hm.
    exists (S (length h)), (derived h vs lab o), (geo vs lab (name o) (crs o)).
    split.
    - apply derived_method; try assumption.
      + rewrite (at_positions_length _ _ _ Hlab).
        apply (at_positions_length _ _ _ Hvs).
      + apply (valid_at_positions _ _ _ Hv Hvs).
    - apply derived_is_derived_from; assumption. }
  destruct op as [a b|indices| |]; simpl run_op; simpl positions.
  - (* slice *)
    unfold GeoSeries.__getitem__.
    apply (Hsel _ (pandas.slice a b (index o)) (pandas.slice a b (values o))).
    + apply slice_at_positions.
    + rewrite <- Hlen. apply slice_at_positions.
    + unfold pandas.__getitem__.
      rewrite (bind_ret _ _ _ _ _ (load_here h s o Hs)). rewrite Hk, Hd.
      reflexivity.
  - (* take *)
    simpl in Hdef. destruct (take_pos_ok _ _ Hdef) as [Hps Hb].
    destruct (gather_ok (index o) _ Hb) as (lab & Elab & Hlab).
    rewrite <- Hlen in Hb.
    destruct (gather_ok (values o) _ Hb) as (vs & Evs & Hvs).
    rewrite Hlen in Hvs.
    unfold GeoSeries.take. apply (Hsel _ lab vs); try assumption.
    unfold pandas.take.
    rewrite (bind_ret _ _ _ _ _ (load_here h s o Hs)).
    unfold lift. unfold bind at 1. rewrite Hps.
    unfold bind at 1. rewrite Elab.
    unfold bind at 1. rewrite <- Hlen at 1. rewrite Evs.
    rewrite Hk, Hd. reflexivity.
  - (* sort_index *)
    pose proof (nargsort_bounds (index o)) as Hb.
    destruct (gather_ok (index o) _ Hb) as (lab & Elab & Hlab).
    rewrite <- Hlen in Hb.
    destruct (gather_ok (values o) _ Hb) as (vs & Evs & Hvs).
    unfold GeoSeries.sort_index. apply (Hsel _ lab vs); try assumption.
    unfold pandas.sort_index.
    rewrite (bind_ret _ _ _ _ _ (load_here h s o Hs)).
    unfold lift. unfold bind at 1. rewrite Elab.
    unfold bind at 1. rewrite Evs.
    rewrite Hk, Hd. reflexivity.
  - (* copy *)
    exists (S (length h)),
      ((h ++ [plain (values o) (index o) (name o) dt_object])
         ++ [geo (values o) (index o) (name o) (crs o)]),
      (geo (values o) (index o) (name o) (crs o)).
    split.
    + unfold GeoSeries.copy.
      rewrite bind_assoc.
      rewrite (bind_ret _ _ _ _ _ (load_here h s o Hs)). rewrite Hd.
      rewrite bind_assoc.
      rewrite (bind_ret _ _ _ _ _
                 (new_object_valid (DArray dt_object (values o))
                    (Some (index o)) None (name o) (values o) h I
                    (sanitize_array _ _ _ Hlen) Hv)).
      simpl labels_of.
      rewrite (bind_ret _ _ _ _ _
                 (finalize_geo _ s o (geo (values o) (index o) (name o) None)
                    (lookup_old h _ _ _ Hs) eq_refl)).
      unfold ret. f_equal. f_equal. f_equal. rewrite length_app. simpl. lia.
    + apply derived_is_derived_from; try assumption.
      * apply at_positions_all.
      * rewrite <- Hlen. apply at_positions_all.
Qed.

End DerivedOperations.

(** ** Reprojection *)

Section Reprojection.
Context `{Pyproj} `{PandasIndex}.

(** The coordinate function [to_crs] builds from two resolved systems. *)
Definition project (proj_in proj_out : proj_t) : coord * coord -> coord * coord :=
  if _PYPROJ2 then Transformer_from_proj proj_in proj_out
  else pyproj_transform proj_in proj_out.

(** The destination a call names: the descriptor, or the one of the code. *)
Definition destination (crs' : option crs_t) (epsg : option Z) : outcome crs_t :=
  match crs' with
  | Some c => Ret c
  | None => from_epsg epsg
  end.










End Reprojection.

(** ** Missing values: [fillna] *)

Section Fill.
Context `{Pyproj} `{PandasIndex}.

(** The value [fillna] fills with: the empty geometry when none is given. *)
Definition fill_with (value : pyval) : pyval :=
  match value with
  | PNone => PGeom BaseGeometry
  | _ => value
  end.

Definition filled (value : pyval) (v : pyval) : pyval :=
  if pandas.isna v then fill_with value else v.

Lemma finalized_values c dt vs lab o : values (finalized c dt vs lab o) = vs.
Proof. unfold finalized. destruct (gives_geoseries c dt vs lab); reflexivity. Qed.

Lemma finalized_index c dt vs lab o : index (finalized c dt vs lab o) = lab.
Proof. unfold finalized. destruct (gives_geoseries c dt vs lab); reflexivity. Qed.

Lemma finalized_name c dt vs lab o : name (finalized c dt vs lab o) = name o.
Proof. unfold finalized. destruct (gives_geoseries c dt vs lab); reflexivity. Qed.

Lemma fill_with_not_None (value : pyval) : fill_with value <> PNone.
Proof. destruct value; discriminate. Qed.

Lemma pandas_fillna_new (h : heap) (s : loc) (o : series) (value : pyval) :
  h !! s = Some o ->
  length (values o) = length (index o) ->
  value <> PNone ->
  exists (r : loc) (h' : heap),
    pandas.fillna GeoSeries._constructor GeoSeries.v__finalize__ s value false h
    = (Ret (RObj r), h') /\
    h `prefix_of` h' /\
    h !! r = None /\
    h' !! r = Some (finalized (klass o) (dtype_of o)
                      (map (fun v => if pandas.isna v then value else v)
                           (values o))
                      (index o) o).
Proof.
  intros Hs Hlen Hval.
  destruct (construct_finalize h s o (klass o) (dtype_of o)
              (map (fun v => if pandas.isna v then value else v) (values o))
              (index o) Hs) as (r & h' & E & Hpre & Hnew & Hr).
  { rewrite length_map. exact Hlen. }
  exists r, h'. split; [|auto].
  assert (Hbody :
    (o0 <- load s ;;
     r0 <- GeoSeries._constructor (klass o0)
             (DArray (dtype_of o0)
                (map (fun v => if pandas.isna v then value else v) (values o0)))
             (Some (index o0)) None ;;
     r' <- GeoSeries.v__finalize__ r0 s ;;
     ret (RObj r')) h = (Ret (RObj r), h')).
  { rewrite (bind_ret _ _ _ _ _ (load_here h s o Hs)).
    rewrite <- (bind_assoc _ (fun r0 => GeoSeries.v__finalize__ r0 s)
                  (fun r' => ret (RObj r')) h).
    rewrite (bind_ret _ _ _ _ _ E). reflexivity. }
  unfold pandas.fillna. destruct value; try exact Hbody. congruence.
Qed.

Lemma pandas_fillna_inplace (h : heap) (s : loc) (o : series) (value : pyval) :
  h !! s = Some o ->
  value <> PNone ->
  pandas.fillna GeoSeries._constructor GeoSeries.v__finalize__ s value true h
  = (Ret (RVal PNone),
     <[s := set_values (map (fun v => if pandas.isna v then value else v)
                            (values o)) o]> h).
Proof.
  intros Hs Hval.
  assert (Hbody :
    (o0 <- load s ;;
     update s (set_values
                 (map (fun v => if pandas.isna v then value else v) (values o0))) ;;;
     ret (RVal PNone)) h
    = (Ret (RVal PNone),
       <[s := set_values (map (fun v => if pandas.isna v then value else v)
                              (values o)) o]> h)).
  { rewrite (bind_ret _ _ _ _ _ (load_here h s o Hs)).
    unfold update, bind. rewrite Hs. reflexivity. }
  unfold pandas.fillna. destruct value; try exact Hbody. congruence.
Qed.

(** C5: [fillna] on a Geometry Sequence returns; the filled Series (a new
    object, or the receiver itself when [inplace]) has the labels of the
    receiver, and at each position the fill value where the element was a
    missing value and the element itself otherwise, so an empty geometry
    stays; the fill value is the empty geometry when none is given. *)
Theorem fillna_replaces_missing_only
        (h : heap) (s : loc) (o : series) (value : pyval) (inplace : bool) :
  GeometrySequence h s o ->
  exists (res : pyres) (h' : heap) (target : loc) (fo : series),
    GeoSeries.fillna s value inplace h = (Ret res, h') /\
    (if inplace then res = RVal PNone /\ target = s
     else res = RObj target /\ h !! target = None /\ h' !! s = Some o) /\
    h' !! target = Some fo /\
    index fo = index o /\
    values fo = map (filled value) (values o) /\
    (forall i g, values o !! i = Some (PGeom g) ->
                 values fo !! i = Some (PGeom g)) /\
    (forall i v, values o !! i = Some v -> pandas.isna v = true ->
                 values fo !! i = Some (fill_with value)) /\
    fill_with PNone = PGeom BaseGeometry /\
    is_empty BaseGeometry = Ret true.
Proof.
  intros [Hs Hk Hd Hlen Hv].
  assert (Hpos : forall vs',
             vs' = map (filled value) (values o) ->
             (forall i g, values o !! i = Some (PGeom g) ->
                          vs' !! i = Some (PGeom g)) /\
             (forall i v, values o !! i = Some v -> pandas.isna v = true ->
                          vs' !! i = Some (fill_with value))).
  { intros vs' ->. split.
    - intros i g Hi. rewrite list_lookup_fmap, Hi. reflexivity.
    - intros i v Hi Hna. rewrite list_lookup_fmap, Hi. simpl.
      unfold filled. rewrite Hna. reflexivity. }
  unfold GeoSeries.fillna. fold (fill_with value).
  destruct inplace.
  - eexists (RVal PNone), _, s, _. split.
    + apply (pandas_fillna_inplace h s o _ Hs (fill_with_not_None value)).
    + split; [auto|]. split.
      * apply list_lookup_insert_eq. apply lookup_lt_Some in Hs. exact Hs.
      * split; [reflexivity|]. split; [reflexivity|].
        destruct (Hpos _ eq_refl) as [P1 P2].
        split; [exact P1|]. split; [exact P2|].
        split; [reflexivity|apply BaseGeometry_is_empty].
  - destruct (pandas_fillna_new h s o _ Hs Hlen (fill_with_not_None value))
      as (r & h' & E & Hpre & Hnew & Hr).
    eexists (RObj r), h', r, _. split; [exact E|].
    split; [split_and!; [reflexivity|exact Hnew|]|].
    + apply (prefix_lookup_Some _ _ _ _ Hs Hpre).
    + split; [exact Hr|]. rewrite finalized_index, finalized_values.
      split; [reflexivity|]. split; [reflexivity|].
      destruct (Hpos _ eq_refl) as [P1 P2].
      split; [exact P1|]. split; [exact P2|].
      split; [reflexivity|apply BaseGeometry_is_empty].
Qed.

End Fill.

(** ** Missing values: [isna] *)

Section Unavailable.
Context `{Pyproj} `{PandasIndex}.

(** What [isna] reports of an element. *)
Definition unavailable (v : pyval) : bool := pandas.isna v || _is_empty v.

Lemma unavailable_iff (v : pyval) :
  unavailable v = true <->
  pandas.isna v = true \/ exists g, v = PGeom g /\ is_empty g = Ret true.
Proof.
  unfold unavailable, _is_empty. rewrite orb_true_iff. split.
  - intros [Hna|He]; [left; exact Hna|].
    destruct v as [| | | | |g]; try discriminate.
    right. exists g. split; [reflexivity|].
    destruct (is_empty g) as [b|e]; [congruence|discriminate].
  - intros [Hna|(g & -> & Hg)]; [left; exact Hna|].
    right. rewrite Hg. reflexivity.
Qed.

Lemma logical_or_bools (p q : pyval -> bool) (vs : list pyval) :
  np.logical_or (map (fun v => PBool (p v)) vs) (map (fun v => PBool (q v)) vs)
  = Ret (map (fun v => PBool (p v || q v)) vs).
Proof.
  induction vs as [|v vs IH]; simpl; [reflexivity|].
  rewrite IH. unfold np.or_. simpl. destruct (p v); reflexivity.
Qed.

Lemma isnull_spec (h : heap) (s : loc) (o : series) :
  h !! s = Some o ->
  length (values o) = length (index o) ->
  exists (r : loc) (h' : heap),
    pandas.isnull GeoSeries._constructor GeoSeries.v__finalize__ s h = (Ret r, h') /\
    h `prefix_of` h' /\
    h' !! r = Some (finalized (klass o) dt_bool
                      (map (fun v => PBool (pandas.isna v)) (values o))
                      (index o) o).
Proof.
  intros Hs Hlen.
  destruct (construct_finalize h s o (klass o) dt_bool
              (map (fun v => PBool (pandas.isna v)) (values o)) (index o) Hs)
    as (r & h' & E & Hpre & _ & Hr).
  { rewrite length_map. exact Hlen. }
  exists r, h'. split; [|auto]. unfold pandas.isnull.
  rewrite (bind_ret _ _ _ _ _ (load_here h s o Hs)). exact E.
Qed.

(** [apply] with a function that does not raise. *)
Lemma apply_spec (h : heap) (s : loc) (o : series)
      (f : pyval -> outcome pyval) (g : pyval -> pyval) :
  h !! s = Some o ->
  length (values o) = length (index o) ->
  (forall v, f v = Ret (g v)) ->
  exists (r : loc) (h' : heap) (dt : dtype),
    pandas.apply GeoSeries._constructor GeoSeries.v__finalize__ s f h = (Ret r, h') /\
    h `prefix_of` h' /\
    h' !! r = Some (finalized (klass o) dt (map g (values o)) (index o) o).
Proof.
  intros Hs Hlen Hf.
  set (dt := match values o with
             | [] => dtype_of o
             | _ => pandas.infer_dtype (map g (values o))
             end).
  destruct (construct_finalize h s o (klass o) dt (map g (values o)) (index o) Hs)
    as (r & h' & E & Hpre & _ & Hr).
  { rewrite length_map. exact Hlen. }
  exists r, h', dt. split; [|auto]. unfold pandas.apply.
  rewrite (bind_ret _ _ _ _ _ (load_here h s o Hs)).
  subst dt. destruct (values o) as [|v vs] eqn:Ev; [exact E|].
  unfold lift. unfold bind at 1.
  rewrite (mapM_Ret f g (v :: vs)); [exact E|].
  apply Forall_forall. intros x _. apply Hf.
Qed.

Lemma logical_or_spec (h : heap) (a b : loc) (ao bo : series) (res : list pyval) :
  h !! a = Some ao ->
  h !! b = Some bo ->
  np.logical_or (values ao) (values bo) = Ret res ->
  length res = length (index ao) ->
  exists (r : loc) (h' : heap) (dt : dtype),
    pandas.logical_or GeoSeries._constructor GeoSeries.v__finalize__ a b h
    = (Ret r, h') /\
    h `prefix_of` h' /\
    h' !! r = Some (finalized (klass ao) dt res (index ao) ao).
Proof.
  intros Ha Hb Hres Hlen.
  set (dt := if dtype_eqb (dtype_of ao) dt_object
                || dtype_eqb (dtype_of bo) dt_object
             then dt_object else dt_bool).
  destruct (construct_finalize h a ao (klass ao) dt res (index ao) Ha Hlen)
    as (r & h' & E & Hpre & _ & Hr).
  exists r, h', dt. split; [|auto]. unfold pandas.logical_or.
  rewrite (bind_ret _ _ _ _ _ (load_here h a ao Ha)).
  rewrite (bind_ret _ _ _ _ _ (load_here h b bo Hb)).
  unfold lift. unfold bind at 1. rewrite Hres. exact E.
Qed.

(** C6: [isna] on a Geometry Sequence returns, whatever the emptiness
    queries of its elements do; the result is a new plain Series with the
    labels of the receiver and, at each position, the boolean that is true
    exactly when the element is a missing value or is a geometry whose
    emptiness query answers true (a query that raises counts as false). *)
Theorem isna_is_missing_or_empty (h : heap) (s : loc) (o : series) :
  GeometrySequence h s o ->
  exists (r : loc) (h' : heap) (ro : series),
    GeoSeries.isna s h = (Ret r, h') /\
    h `prefix_of` h' /\
    h !! r = None /\
    h' !! r = Some ro /\
    klass ro = Series_cls /\
    index ro = index o /\
    length (values ro) = length (values o) /\
    (forall i v, values o !! i = Some v ->
       exists b : bool,
         values ro !! i = Some (PBool b) /\
         (b = true <->
          pandas.isna v = true \/
          exists g, v = PGeom g /\ is_empty g = Ret true)).
Proof.
  intros [Hs Hk Hd Hlen Hv].
  destruct (isnull_spec h s o Hs Hlen) as (n & h1 & E1 & P1 & Hn).
  pose proof (prefix_lookup_Some _ _ _ _ Hs P1) as Hs1.
  destruct (apply_spec h1 s o (fun x => Ret (PBool (_is_empty x)))
              (fun x => PBool (_is_empty x)) Hs1 Hlen (fun v => eq_refl))
    as (e & h2 & dte & E2 & P2 & He).
  pose proof (prefix_lookup_Some _ _ _ _ Hn P2) as Hn2.
  destruct (logical_or_spec h2 n e _ _
              (map (fun v => PBool (unavailable v)) (values o)) Hn2 He)
    as (u & h3 & dtu & E3 & P3 & Hu).
  { rewrite !finalized_values. apply logical_or_bools. }
  { rewrite finalized_index, length_map. exact Hlen. }
  rewrite finalized_index in Hu.
  set (uo := finalized (klass (finalized (klass o) dt_bool
                 (map (fun v => PBool (pandas.isna v)) (values o)) (index o) o))
               dtu (map (fun v => PBool (unavailable v)) (values o)) (index o)
               (finalized (klass o) dt_bool
                 (map (fun v => PBool (pandas.isna v)) (values o)) (index o) o))
    in *.
  exists (length h3), (h3 ++ [plain (values uo) (index uo) (name uo) (dtype_of uo)]),
    (plain (values uo) (index uo) (name uo) (dtype_of uo)).
  assert (Huv : values uo = map (fun v => PBool (unavailable v)) (values o)).
  { apply finalized_values. }
  assert (Hui : index uo = index o).
  { apply finalized_index. }
  split; [|split_and!].
  - unfold GeoSeries.isna.
    rewrite (bind_ret _ _ _ _ _ E1), (bind_ret _ _ _ _ _ E2),
      (bind_ret _ _ _ _ _ E3).
    rewrite (bind_ret _ _ _ _ _ (load_here h3 u uo Hu)).
    apply (Series_eq _ (Some (index uo))), sanitize_array.
    rewrite Huv, Hui, length_map. exact Hlen.
  - etrans; [exact P1|]. etrans; [exact P2|]. etrans; [exact P3|].
    apply prefix_app_r. reflexivity.
  - apply lookup_ge_None.
    pose proof (prefix_length _ _ P1). pose proof (prefix_length _ _ P2).
    pose proof (prefix_length _ _ P3). lia.
  - apply lookup_snoc.
  - reflexivity.
  - exact Hui.
  - simpl. rewrite Huv, length_map. reflexivity.
  - intros i v Hi. exists (unavailable v). split.
    + simpl. rewrite Huv, list_lookup_fmap, Hi. reflexivity.
    + apply unavailable_iff.
Qed.

End Unavailable.

(** ** Alignment *)

Section Alignment.
Context `{Pyproj} `{PandasIndex}.

(** A method made the new object [g] at [r] and left the rest alone. *)
Definition fresh (h h' : heap) (r : loc) (g : series) : Prop :=
  h `prefix_of` h' /\ h !! r = None /\ h' !! r = Some g.

Lemma finalize_at (h : heap) (r self : loc) (g o : series) :
  h !! r = Some g ->
  klass g = GeoSeries_cls ->
  h !! self = Some o ->
  r <> self ->
  GeoSeries.v__finalize__ r self h =
  (Ret r, <[r := set_crs (crs o) (set_name (name o) g)]> h).
Proof.
  intros Hr Hk Hs Hne. unfold GeoSeries.v__finalize__.
  rewrite (bind_ret _ _ _ _ _ (load_here h r g Hr)). rewrite Hk.
  unfold GeoSeries.__finalize__.
  rewrite (bind_ret _ _ _ _ _ (load_here h self o Hs)).
  unfold update, bind. rewrite Hr.
  rewrite list_lookup_insert_eq by (apply lookup_lt_Some in Hr; exact Hr).
  rewrite list_insert_insert_eq. reflexivity.
Qed.

Lemma copy_spec (h : heap) (s : loc) (o : series) :
  GeometrySequence h s o ->
  exists (r : loc) (h' : heap),
    GeoSeries.v_copy s h = (Ret r, h') /\
    fresh h h' r (geo (values o) (index o) (name o) (crs o)).
Proof.
  intros [Hs Hk Hd Hlen Hv].
  exists (S (length h)),
    ((h ++ [plain (values o) (index o) (name o) dt_object])
       ++ [geo (values o) (index o) (name o) (crs o)]).
  assert (Hr : S (length h)
               = length (h ++ [plain (values o) (index o) (name o) dt_object])).
  { rewrite length_app. simpl. lia. }
  split; [|split_and!].
  - unfold GeoSeries.v_copy.
    rewrite (bind_ret _ _ _ _ _ (load_here h s o Hs)). rewrite Hk.
    unfold GeoSeries.copy.
    rewrite (bind_ret _ _ _ _ _ (load_here h s o Hs)). rewrite Hd.
    rewrite (bind_ret _ _ _ _ _
               (new_object_valid (DArray dt_object (values o))
                  (Some (index o)) None (name o) (values o) h I
                  (sanitize_array _ _ _ Hlen) Hv)).
    simpl labels_of.
    rewrite (finalize_geo _ s o (geo (values o) (index o) (name o) None)
               (lookup_old h _ _ _ Hs) eq_refl).
    rewrite <- Hr. reflexivity.
  - rewrite <- app_assoc. apply prefix_app_r. reflexivity.
  - apply lookup_ge_None. lia.
  - rewrite Hr. apply lookup_snoc.
Qed.

(** An indexer within the bounds of [vs]. *)
Definition indexer_ok (vs : list pyval) (indexer : list (option nat)) : Prop :=
  Forall (fun i => match i with
                   | Some p => (p < length vs)%nat
                   | None => True
                   end) indexer.

(** The element an indexer position selects: NaN for the absent one. *)
Definition selected (vs : list pyval) (i : option nat) (v : pyval) : Prop :=
  match i with
  | Some p => vs !! p = Some v
  | None => v = PNaN
  end.

Lemma take_1d_ok (vs : list pyval) (indexer : list (option nat)) :
  indexer_ok vs indexer ->
  exists vs', pandas.take_1d vs indexer = Ret vs' /\
              Forall2 (selected vs) indexer vs'.
Proof.
  unfold pandas.take_1d, indexer_ok.
  induction 1 as [|i indexer Hi _ (vs' & E & F)]; simpl.
  - exists []. split; [reflexivity|constructor].
  - destruct i as [p|].
    + apply lookup_lt_is_Some in Hi as [x Hx]. rewrite Hx, E.
      exists (x :: vs'). split; [reflexivity|]. constructor; assumption.
    + rewrite E. exists (PNaN :: vs'). split; [reflexivity|].
      constructor; [reflexivity|assumption].
Qed.

Lemma selected_valid (vs : list pyval) indexer vs' :
  valid vs = true -> Forall2 (selected vs) indexer vs' -> valid vs' = true.
Proof.
  unfold valid. intros Hv. rewrite forallb_forall in Hv.
  induction 1 as [|i v indexer vs' Hsel _ IH]; simpl; [reflexivity|].
  rewrite IH, andb_true_r. destruct i as [p|]; simpl in Hsel.
  - apply Hv, list_elem_of_In, list_elem_of_lookup. exists p. exact Hsel.
  - subst v. reflexivity.
Qed.

Lemma reindex_spec (h : heap) (s : loc) (o : series) (new_index : list Z)
      (indexer : list (option nat)) :
  GeometrySequence h s o ->
  indexer_ok (values o) indexer ->
  length indexer = length new_index ->
  exists (r : loc) (h' : heap) (vs' : list pyval),
    pandas._reindex_indexer GeoSeries._constructor s new_index indexer h
    = (Ret r, h') /\
    Forall2 (selected (values o)) indexer vs' /\
    fresh h h' r (geo vs' new_index None None).
Proof.
  intros [Hs Hk Hd Hlen Hv] Hok Hn.
  destruct (take_1d_ok _ _ Hok) as (vs' & E & F).
  assert (Hlen' : length vs' = length new_index).
  { rewrite <- Hn. symmetry. exact (Forall2_length _ _ _ F). }
  set (p := plain vs' new_index None dt_object).
  exists (S (length h)), ((h ++ [p]) ++ [geo vs' new_index None None]), vs'.
  assert (Hr : S (length h) = length (h ++ [p])).
  { rewrite length_app. simpl. lia. }
  split; [|split; [exact F|split_and!]].
  - unfold pandas._reindex_indexer.
    rewrite (bind_ret _ _ _ _ _ (load_here h s o Hs)).
    unfold lift. unfold bind at 1. rewrite E. rewrite Hk, Hd.
    unfold GeoSeries._constructor.
    rewrite (new_object_valid (DArray dt_object vs') (Some new_index) None None
               vs' h I (sanitize_array _ _ _ Hlen')
               (selected_valid _ _ _ Hv F)).
    simpl labels_of. fold p. rewrite <- Hr. reflexivity.
  - rewrite <- app_assoc. apply prefix_app_r. reflexivity.
  - apply lookup_ge_None. lia.
  - rewrite Hr. apply lookup_snoc.
Qed.

Lemma filled_valid (g : geometry) (vs : list pyval) :
  valid vs = true ->
  valid (map (fun v => if pandas.isna v then PGeom g else v) vs) = true.
Proof.
  unfold valid. induction vs as [|v vs IH]; simpl; [reflexivity|].
  intros [Hv Hvs]%andb_prop. rewrite (IH Hvs), andb_true_r.
  destruct (pandas.isna v) eqn:E; [reflexivity|]. rewrite E. exact Hv.
Qed.

Lemma fillna_spec (h : heap) (s : loc) (o : series) (g : geometry) :
  GeometrySequence h s o ->
  exists (r : loc) (h' : heap),
    (x <- GeoSeries.v_fillna s (PGeom g) ;; pandas.as_obj x) h = (Ret r, h') /\
    fresh h h' r
      (geo (map (fun v => if pandas.isna v then PGeom g else v) (values o))
           (index o) (name o) (crs o)).
Proof.
  intros [Hs Hk Hd Hlen Hv].
  destruct (pandas_fillna_new h s o (PGeom g) Hs Hlen ltac:(discriminate))
    as (r & h' & E & Hpre & Hnew & Hr).
  exists r, h'. split.
  - unfold GeoSeries.v_fillna.
    rewrite bind_assoc.
    rewrite (bind_ret _ _ _ _ _ (load_here h s o Hs)). rewrite Hk.
    unfold GeoSeries.fillna.
    rewrite (bind_ret _ _ _ _ _ E). reflexivity.
  - split; [exact Hpre|]. split; [exact Hnew|].
    rewrite Hr. unfold finalized, gives_geoseries. rewrite Hk, Hd. simpl.
    rewrite (filled_valid g _ Hv). reflexivity.
Qed.

Lemma gs_prefix (h h' : heap) (s : loc) (o : series) :
  GeometrySequence h s o -> h `prefix_of` h' -> GeometrySequence h' s o.
Proof.
  intros [Hs Hk Hd Hlen Hv] Hpre. constructor; try assumption.
  apply (prefix_lookup_Some _ _ _ _ Hs Hpre).
Qed.

Lemma geo_is_gs (h : heap) (r : loc) vs lab nm c :
  h !! r = Some (geo vs lab nm c) ->
  length vs = length lab ->
  valid vs = true ->
  GeometrySequence h r (geo vs lab nm c).
Proof. intros Hr Hlen Hv. constructor; try assumption; reflexivity. Qed.

(** The empty geometry in place of the missing values. *)
Definition known_empty (v : pyval) : pyval :=
  if pandas.isna v then PGeom BaseGeometry else v.

(** The second half of [align]: both sides filled, then finalized. *)
Lemma align_tail (h : heap) (self other l1 r1 : loc) (so oo gl gr : series) :
  h !! self = Some so ->
  h !! other = Some oo ->
  GeometrySequence h l1 gl ->
  GeometrySequence h r1 gr ->
  exists (l r : loc) (h' : heap),
    (lr' <- (l <- (x <- GeoSeries.v_fillna l1 (PGeom BaseGeometry) ;;
                   pandas.as_obj x) ;;
             r <- (x <- GeoSeries.v_fillna r1 (PGeom BaseGeometry) ;;
                   pandas.as_obj x) ;;
             ret (l, r)) ;;
     left <- GeoSeries.v__finalize__ (fst lr') self ;;
     right <- GeoSeries.v__finalize__ (snd lr') other ;;
     ret (left, right)) h = (Ret (l, r), h') /\
    l <> r /\ h !! l = None /\ h !! r = None /\
    h' !! l = Some (geo (map known_empty (values gl)) (index gl)
                        (name so) (crs so)) /\
    h' !! r = Some (geo (map known_empty (values gr)) (index gr)
                        (name oo) (crs oo)).
Proof.
  intros Hs Ho Hgl Hgr.
  destruct (fillna_spec h l1 gl BaseGeometry Hgl) as (l & h3 & El & Pl & Nl & Hl).
  pose proof (gs_prefix _ _ _ _ Hgr Pl) as Hgr3.
  destruct (fillna_spec h3 r1 gr BaseGeometry Hgr3) as (r & h4 & Er & Pr & Nr & Hr).
  fold known_empty in Hl, Hr.
  pose proof (prefix_lookup_Some _ _ _ _ Hl Pr) as Hl4.
  pose proof (prefix_lookup_Some _ _ _ _ Hs Pl) as Hs3.
  pose proof (prefix_lookup_Some _ _ _ _ Hs3 Pr) as Hs4.
  pose proof (prefix_lookup_Some _ _ _ _ Ho Pl) as Ho3.
  pose proof (prefix_lookup_Some _ _ _ _ Ho3 Pr) as Ho4.
  assert (Hlr : l <> r) by congruence.
  assert (Hls : l <> self) by congruence.
  assert (Hlo : l <> other) by congruence.
  assert (Hro : r <> other) by congruence.
  assert (Nr0 : h !! r = None).
  { destruct (h !! r) eqn:E; [|reflexivity].
    rewrite (prefix_lookup_Some _ _ _ _ E Pl) in Nr. discriminate. }
  exists l, r. eexists. split; [|split_and!; try assumption].
  - rewrite (bind_ret _ _ h h4 (l, r)).
    + simpl fst. simpl snd.
      rewrite (bind_ret _ _ _ _ _
                 (finalize_at h4 l self _ so Hl4 eq_refl Hs4 Hls)).
      rewrite (bind_ret _ _ _ _ _
                 (finalize_at _ r other _ oo
                    (eq_trans (list_lookup_insert_ne h4 l r _ Hlr) Hr)
                    eq_refl
                    (eq_trans (list_lookup_insert_ne h4 l other _ Hlo) Ho4)
                    Hro)).
      reflexivity.
    + rewrite (bind_ret _ _ _ _ _ El), (bind_ret _ _ _ _ _ Er). reflexivity.
  - rewrite list_lookup_insert_ne by congruence.
    apply list_lookup_insert_eq. apply lookup_lt_Some in Hl4. exact Hl4.
  - apply list_lookup_insert_eq. rewrite length_insert.
    apply lookup_lt_Some in Hr. exact Hr.
Qed.

Lemma join_indexers_ok (join : how) (so oo : series) :
  length (values so) = length (index so) ->
  length (values oo) = length (index oo) ->
  let rows := Index_join join (index so) (index oo) in
  indexer_ok (values so) (map (fun row => snd (fst row)) rows) /\
  indexer_ok (values oo) (map snd rows).
Proof.
  intros Hls Hlo rows. unfold indexer_ok. split.
  - apply Forall_map, Forall_forall. intros [[lab i] j] Hin.
    apply list_elem_of_In, Index_join_lookup in Hin as [Hi _].
    simpl. destruct i as [p|]; [|exact I].
    rewrite Hls. apply (lookup_lt_Some _ _ lab), Hi. reflexivity.
  - apply Forall_map, Forall_forall. intros [[lab i] j] Hin.
    apply list_elem_of_In, Index_join_lookup in Hin as [_ Hj].
    simpl. destruct j as [q|]; [|exact I].
    rewrite Hlo. apply (lookup_lt_Some _ _ lab), Hj. reflexivity.
Qed.

Lemma known_empty_not_missing (vs : list pyval) :
  Forall (fun v => pandas.isna v = false) (map known_empty vs).
Proof.
  apply Forall_map, Forall_forall. intros v _. unfold known_empty.
  destruct (pandas.isna v) eqn:E; [reflexivity|exact E].
Qed.

(** C7: [align] of two Geometry Sequences with no fill value returns two
    new GeoSeries, each with the [crs] and the name of its side, over one
    list of labels and of one length: the common labels when both sides
    have the same, the joined labels otherwise.  No element of either is a
    missing value, and a position that has no counterpart on a side holds
    the empty geometry on that side. *)
Theorem align_fills_gaps_with_empty_geometry
        (h : heap) (s t : loc) (so oo : series) (join : how) :
  GeometrySequence h s so ->
  GeometrySequence h t oo ->
  exists (l r : loc) (h' : heap) (lo ro : series),
    GeoSeries.align s t join PNone h = (Ret (l, r), h') /\
    l <> r /\ h !! l = None /\ h !! r = None /\
    h' !! l = Some lo /\ h' !! r = Some ro /\
    klass lo = GeoSeries_cls /\ klass ro = GeoSeries_cls /\
    crs lo = crs so /\ name lo = name so /\
    crs ro = crs oo /\ name ro = name oo /\
    index lo = index ro /\
    length (values lo) = length (index lo) /\
    length (values ro) = length (index ro) /\
    Forall (fun v => pandas.isna v = false) (values lo) /\
    Forall (fun v => pandas.isna v = false) (values ro) /\
    (if bool_decide (index so = index oo) then index lo = index so
     else
       let rows := Index_join join (index so) (index oo) in
       index lo = map (fun row => fst (fst row)) rows /\
       (forall k lab j, rows !! k = Some (lab, None, j) ->
                        values lo !! k = Some (PGeom BaseGeometry)) /\
       (forall k lab i, rows !! k = Some (lab, i, None) ->
                        values ro !! k = Some (PGeom BaseGeometry))).
Proof.
  intros Hgs Hgt.
  pose proof Hgs as [Hs Hks Hds Hlens Hvs].
  pose proof Hgt as [Ht Hkt Hdt Hlent Hvt].
  unfold GeoSeries.align, pandas.align.
  rewrite (bind_ret _ _ _ _ _ (load_here h s so Hs)).
  rewrite (bind_ret _ _ _ _ _ (load_here h t oo Ht)).
  destruct (bool_decide (index so = index oo)) eqn:Eidx.
  - (* the same labels: both sides are copied *)
    apply bool_decide_eq_true in Eidx.
    destruct (copy_spec h s so Hgs) as (l1 & h1 & E1 & P1 & N1 & L1).
    destruct (copy_spec h1 t oo (gs_prefix _ _ _ _ Hgt P1))
      as (r1 & h2 & E2 & P2 & N2 & R1).
    pose proof (geo_is_gs _ _ _ _ _ _ (prefix_lookup_Some _ _ _ _ L1 P2) Hlens Hvs)
      as Hgl.
    pose proof (geo_is_gs _ _ _ _ _ _ R1 Hlent Hvt) as Hgr.
    destruct (align_tail h2 s t l1 r1 so oo _ _
                (prefix_lookup_Some _ _ _ _ (prefix_lookup_Some _ _ _ _ Hs P1) P2)
                (prefix_lookup_Some _ _ _ _ (prefix_lookup_Some _ _ _ _ Ht P1) P2)
                Hgl Hgr)
      as (l & r & h' & E & Hne & Nl & Nr & Hl & Hr).
    simpl in Hl, Hr.
    exists l, r, h',
      (geo (map known_empty (values so)) (index so) (name so) (crs so)),
      (geo (map known_empty (values oo)) (index oo) (name oo) (crs oo)).
    split; [|split_and!; try assumption; try reflexivity].
    + rewrite (bind_ret _ _ h h2 (l1, r1)); [exact E|].
      rewrite (bind_ret _ _ _ _ _ E1), (bind_ret _ _ _ _ _ E2). reflexivity.
    + destruct (h !! l) eqn:X; [|reflexivity].
      rewrite (prefix_lookup_Some _ _ _ _ (prefix_lookup_Some _ _ _ _ X P1) P2)
        in Nl. discriminate.
    + destruct (h !! r) eqn:X; [|reflexivity].
      rewrite (prefix_lookup_Some _ _ _ _ (prefix_lookup_Some _ _ _ _ X P1) P2)
        in Nr. discriminate.
    + simpl. rewrite length_map. exact Hlens.
    + simpl. rewrite length_map. exact Hlent.
    + apply known_empty_not_missing.
    + apply known_empty_not_missing.
  - (* other labels: the indexes are joined and both sides reindexed *)
    set (rows := Index_join join (index so) (index oo)).
    destruct (join_indexers_ok join so oo Hlens Hlent) as [Okl Okr].
    fold rows in Okl, Okr.
    destruct (reindex_spec h s so (map (fun row => fst (fst row)) rows) _ Hgs Okl)
      as (l1 & h1 & vl & E1 & Fl & P1 & N1 & L1).
    { rewrite !length_map. reflexivity. }
    destruct (reindex_spec h1 t oo (map (fun row => fst (fst row)) rows) _
                (gs_prefix _ _ _ _ Hgt P1) Okr)
      as (r1 & h2 & vr & E2 & Fr & P2 & N2 & R1).
    { rewrite !length_map. reflexivity. }
    assert (Hll : length vl = length (map (fun row => fst (fst row)) rows)).
    { rewrite <- (Forall2_length _ _ _ Fl), !length_map. reflexivity. }
    assert (Hlr : length vr = length (map (fun row => fst (fst row)) rows)).
    { rewrite <- (Forall2_length _ _ _ Fr), !length_map. reflexivity. }
    pose proof (geo_is_gs _ _ _ _ _ _ (prefix_lookup_Some _ _ _ _ L1 P2) Hll
                  (selected_valid _ _ _ Hvs Fl)) as Hgl.
    pose proof (geo_is_gs _ _ _ _ _ _ R1 Hlr (selected_valid _ _ _ Hvt Fr)) as Hgr.
    destruct (align_tail h2 s t l1 r1 so oo _ _
                (prefix_lookup_Some _ _ _ _ (prefix_lookup_Some _ _ _ _ Hs P1) P2)
                (prefix_lookup_Some _ _ _ _ (prefix_lookup_Some _ _ _ _ Ht P1) P2)
                Hgl Hgr)
      as (l & r & h' & E & Hne & Nl & Nr & Hl & Hr).
    simpl in Hl, Hr.
    exists l, r, h',
      (geo (map known_empty vl) (map (fun row => fst (fst row)) rows)
           (name so) (crs so)),
      (geo (map known_empty vr) (map (fun row => fst (fst row)) rows)
           (name oo) (crs oo)).
    split; [|split_and!; try assumption; try reflexivity].
    + rewrite (bind_ret _ _ h h2 (l1, r1)); [exact E|].
      rewrite (bind_ret _ _ _ _ _ E1), (bind_ret _ _ _ _ _ E2). reflexivity.
    + destruct (h !! l) eqn:X; [|reflexivity].
      rewrite (prefix_lookup_Some _ _ _ _ (prefix_lookup_Some _ _ _ _ X P1) P2)
        in Nl. discriminate.
    + destruct (h !! r) eqn:X; [|reflexivity].
      rewrite (prefix_lookup_Some _ _ _ _ (prefix_lookup_Some _ _ _ _ X P1) P2)
        in Nr. discriminate.
    + simpl. rewrite length_map. exact Hll.
    + simpl. rewrite length_map. exact Hlr.
    + apply known_empty_not_missing.
    + apply known_empty_not_missing.
    + intros k lab j Hk. simpl. rewrite list_lookup_fmap.
      assert (Hi : map (fun row => snd (fst row)) rows !! k = Some None).
      { rewrite list_lookup_fmap, Hk. reflexivity. }
      destruct (Forall2_lookup_l _ _ _ _ _ Fl Hi) as (v & Hv & Hsel).
      simpl in Hsel. subst v. rewrite Hv. reflexivity.
    + intros k lab i Hk. simpl. rewrite list_lookup_fmap.
      assert (Hj : map snd rows !! k = Some None).
      { rewrite list_lookup_fmap, Hk. reflexivity. }
      destruct (Forall2_lookup_l _ _ _ _ _ Fr Hj) as (v & Hv & Hsel).
      simpl in Hsel. subst v. rewrite Hv. reflexivity.
Qed.

End Alignment.

(** ** The statements on the instance *)

(** A GeoSeries of three points in EPSG:4326. *)
Definition wgs_points : series :=
  geo [shape_val (Toy.Point 1 1); shape_val (Toy.Point 2 2);
       shape_val (Toy.Point 3 3)]
      [0; 1; 2] None (Some (Toy.Named "EPSG:4326")).

(** A GeoSeries "g" in EPSG:4326 with a point, a missing value, an empty
    geometry and a released handle, at the labels 3, 1, 2 and 5. *)
Definition mixed : series :=
  geo [shape_val (Toy.Point 0 0); PNone; shape_val Toy.Empty;
       shape_val Toy.Closed]
      [3; 1; 2; 5] (Some "g") (Some (Toy.Named "EPSG:4326")).

(** A GeoSeries of two points at the labels 2 and 7. *)
Definition two_points : series :=
  geo [shape_val (Toy.Point 5 5); shape_val (Toy.Point 6 6)]
      [2; 7] None None.

Definition sample_heap : list series := [wgs_points; mixed; two_points].


Lemma mixed_gs : GeometrySequence sample_heap 1 mixed.
Proof. constructor; reflexivity. Qed.

Lemma two_points_gs : GeometrySequence sample_heap 2 two_points.
Proof. constructor; reflexivity. Qed.

Lemma derived_operations_keep_metadata_witness :
  exists (r : nat) (h' : list series) (ro : series),
    run_op (op_take [-1; 0]) 1%nat sample_heap = (Ret (RObj r), h') /\
    derived_from sample_heap h' 1%nat r mixed ro
                 (positions (op_take [-1; 0]) mixed).
Proof.
  apply (derived_operations_keep_metadata sample_heap 1%nat mixed
           (op_take [-1; 0]) mixed_gs).
  simpl. repeat (constructor; [lia|]). constructor.
Defined.




Lemma fillna_replaces_missing_only_witness :
  exists (res : pyres) (h' : list series) (target : nat) (fo : series),
    GeoSeries.fillna 1%nat PNone false sample_heap = (Ret res, h') /\
    (res = RObj target /\ sample_heap !! target = None /\
     h' !! 1%nat = Some mixed) /\
    h' !! target = Some fo /\
    index fo = index mixed /\
    values fo = map (filled PNone) (values mixed) /\
    (forall i g, values mixed !! i = Some (PGeom g) ->
                 values fo !! i = Some (PGeom g)) /\
    (forall i v, values mixed !! i = Some v -> pandas.isna v = true ->
                 values fo !! i = Some (fill_with PNone)) /\
    fill_with PNone = PGeom BaseGeometry /\
    is_empty BaseGeometry = Ret true.
Proof.
  apply (fillna_replaces_missing_only sample_heap 1%nat mixed PNone false
           mixed_gs).
Defined.

Lemma isna_is_missing_or_empty_witness :
  exists (r : nat) (h' : list series) (ro : series),
    GeoSeries.isna 1%nat sample_heap = (Ret r, h') /\
    sample_heap `prefix_of` h' /\
    sample_heap !! r = None /\
    h' !! r = Some ro /\
    klass ro = Series_cls /\
    index ro = index mixed /\
    length (values ro) = length (values mixed) /\
    (forall i v, values mixed !! i = Some v ->
       exists b : bool,
         values ro !! i = Some (PBool b) /\
         (b = true <->
          pandas.isna v = true \/
          exists g, v = PGeom g /\ is_empty g = Ret true)).
Proof. apply (isna_is_missing_or_empty sample_heap 1%nat mixed mixed_gs). Defined.

Lemma align_fills_gaps_with_empty_geometry_witness :
  exists (l r : nat) (h' : list series) (lo ro : series),
    GeoSeries.align 1%nat 2%nat join_outer PNone sample_heap = (Ret (l, r), h') /\
    l <> r /\ sample_heap !! l = None /\ sample_heap !! r = None /\
    h' !! l = Some lo /\ h' !! r = Some ro /\
    klass lo = GeoSeries_cls /\ klass ro = GeoSeries_cls /\
    crs lo = crs mixed /\ name lo = name mixed /\
    crs ro = crs two_points /\ name ro = name two_points /\
    index lo = index ro /\
    length (values lo) = length (index lo) /\
    length (values ro) = length (index ro) /\
    Forall (fun v => pandas.isna v = false) (values lo) /\
    Forall (fun v => pandas.isna v = false) (values ro) /\
    (let rows := Index_join join_outer (index mixed) (index two_points) in
     index lo = map (fun row => fst (fst row)) rows /\
     (forall k lab j, rows !! k = Some (lab, None, j) ->
                      values lo !! k = Some (PGeom BaseGeometry)) /\
     (forall k lab i, rows !! k = Some (lab, i, None) ->
                      values ro !! k = Some (PGeom BaseGeometry))).
Proof.
  apply (align_fills_gaps_with_empty_geometry sample_heap 1%nat 2%nat
           mixed two_points join_outer mixed_gs two_points_gs).
Defined.

(** C8 fails as it is stated: from the empty list the constructor returns a
    GeoSeries, the third object it makes, and not the plain Series. *)
Lemma empty_data_is_not_plain :
  exists h' : list series,
    GeoSeries.__new__ (DList []) None None None [] = (Ret 2%nat, h') /\
    klass <$> h' !! 2%nat = Some GeoSeries_cls /\
    klass <$> h' !! 2%nat <> Some Series_cls.
Proof. eexists. split; [reflexivity|]. split; [reflexivity|discriminate]. Qed.

Lemma empty_data_gives_geoseries_witness :
  exists (s : nat) (h' : list series) (o : series),
    GeoSeries.__new__ (DList []) (Some []) None (Some "empty") sample_heap
    = (Ret s, h') /\
    h' !! s = Some o /\
    klass o = GeoSeries_cls /\
    values o = [] /\
    index o = [] /\
    crs o = None /\
    name o = Some "empty".
Proof.
  apply (empty_data_gives_geoseries (Some []) None (Some "empty") sample_heap).
  reflexivity.
Defined.

Lemma contains_is_some_element_equal_witness :
  exists (b : bool) (h' : list series),
    GeoSeries.__contains__ 1%nat (shape_val (Toy.Point 0 0)) sample_heap
    = (Ret b, h') /\
    sample_heap `prefix_of` h' /\
    (b = true <->
     exists g i e, shape_val (Toy.Point 0 0) = PGeom g /\
                   values mixed !! i = Some (PGeom e) /\ equals e g = true).
Proof.
  apply (contains_is_some_element_equal sample_heap 1%nat mixed
           (shape_val (Toy.Point 0 0)) mixed_gs).
Defined.

(** * Further properties of the module *)

(** ** The constructor *)

Section ConstructorMore.
Context `{Pyproj} `{PandasIndex}.

Lemma forallb_false_of_existsb {A} (p q : A -> bool) (l : list A) :
  existsb p l = true ->
  (forall x, p x = true -> q x = false) ->
  forallb q l = false.
Proof.
  intros Hex Hpq. apply existsb_exists in Hex as (x & Hin & Hp).
  destruct (forallb q l) eqn:E; [|reflexivity].
  rewrite forallb_forall in E. specialize (E x Hin).
  rewrite (Hpq x Hp) in E. discriminate.
Qed.

Lemma infer_with_geometry (l : list pyval) :
  existsb isinstance_BaseGeometry l = true -> pandas.infer_dtype l = dt_object.
Proof.
  intros Hex. unfold pandas.infer_dtype.
  destruct l as [|v l]; [discriminate|].
  rewrite (forallb_false_of_existsb _ pandas.is_int _ Hex)
    by (intros [] ?; try discriminate; reflexivity).
  rewrite (forallb_false_of_existsb _ pandas.is_bool _ Hex)
    by (intros [] ?; try discriminate; reflexivity).
  rewrite (forallb_false_of_existsb _ (fun v => pandas.is_number v || pandas.isna v)
             _ Hex)
    by (intros [] ?; try discriminate; reflexivity).
  reflexivity.
Qed.

(** A list of geometries and missing values with at least one geometry
    becomes a Geometry Sequence: the elements as given, the labels given
    (or 0, 1, ...), the [crs] and the name given, and no cached spatial
    index; the objects that were there are left alone. *)
Theorem new_valid_data_is_geometry_sequence
        (data : list pyval) (idx : option (list Z)) (c : option crs_t)
        (nm : option string) (h : heap) :
  valid data = true ->
  existsb isinstance_BaseGeometry data = true ->
  index_fits data idx ->
  exists (s : loc) (h' : heap) (o : series),
    GeoSeries.__new__ (DList data) idx c nm h = (Ret s, h') /\
    h `prefix_of` h' /\
    h !! s = None /\
    GeometrySequence h' s o /\
    values o = data /\
    index o = labels_of data idx /\
    crs o = c /\
    name o = nm /\
    _sindex o = None /\
    _sindex_generated o = false.
Proof.
  intros Hv Hg Hfit.
  pose proof (sanitize_list data idx Hfit) as Hs.
  rewrite (infer_with_geometry data Hg) in Hs.
  exists (S (length h)),
    ((h ++ [plain data (labels_of data idx) nm dt_object])
       ++ [geo data (labels_of data idx) nm c]),
    (geo data (labels_of data idx) nm c).
  split; [|split_and!; try reflexivity].
  - rewrite (new_object_valid (DList data) idx c nm data h I Hs Hv).
    rewrite length_app. simpl. rewrite Nat.add_1_r. reflexivity.
  - rewrite <- app_assoc. apply prefix_app_r. reflexivity.
  - apply lookup_ge_None. lia.
  - apply geo_is_gs.
    + replace (S (length h))
        with (length (h ++ [plain data (labels_of data idx) nm dt_object])).
      * apply lookup_snoc.
      * rewrite length_app. simpl. lia.
    + apply (sanitize_length _ _ _ _ Hs).
    + exact Hv.
Qed.








End ConstructorMore.

(** ** The wrapper of the inherited methods *)

Section Wrapper.
Context `{Pyproj} `{PandasIndex}.

Lemma update_here (h : heap) (l : loc) (o : series) (f : series -> series) :
  h !! l = Some o -> update l f h = (Ret tt, <[l := f o]> h).
Proof. intros Hl. unfold update. rewrite Hl. reflexivity. Qed.

(** When the inherited method returns an object whose class is [Series]
    itself, the wrapper returns that same object, now a GeoSeries with the
    [crs] of the receiver and no cached spatial index; its values, labels,
    name and dtype are what the method made them (they are not validated),
    and no other object changes. *)
Theorem wrapped_series_is_retagged
        (h h1 : heap) (self r : loc) (so ro : series) (mtd : loc -> Py pyres) :
  mtd self h = (Ret (RObj r), h1) ->
  h1 !! r = Some ro ->
  klass ro = Series_cls ->
  h1 !! self = Some so ->
  GeoSeries._wrapped_pandas_method self mtd h =
  (Ret (RObj r),
   <[r := mkSeries GeoSeries_cls (values ro) (index ro) (name ro) (dtype_of ro)
                   (crs so) None false]> h1).
Proof.
  intros Hm Hr Hk Hs. unfold GeoSeries._wrapped_pandas_method.
  rewrite (bind_ret _ _ _ _ _ Hm).
  rewrite (bind_ret _ _ _ _ _ (load_here h1 r ro Hr)). rewrite Hk.
  rewrite (bind_ret _ _ _ _ _ (load_here h1 self so Hs)).
  pose proof (lookup_lt_Some _ _ _ Hr) as Hlt.
  rewrite (bind_ret _ _ _ _ tt (update_here h1 r ro _ Hr)).
  rewrite (bind_ret _ _ _ _ tt
             (update_here _ r _ _ (list_lookup_insert_eq h1 r _ Hlt))).
  rewrite list_insert_insert_eq.
  unfold GeoPandasBase._invalidate_sindex.
  rewrite (bind_ret _ _ _ _ tt
             (update_here _ r _ _ (list_lookup_insert_eq h1 r _ Hlt))).
  rewrite list_insert_insert_eq. reflexivity.
Qed.

Lemma wrapped_pass (h h1 : heap) (self : loc) (res : outcome pyres)
      (mtd : loc -> Py pyres) :
  mtd self h = (res, h1) ->
  match res with
  | Ret (RObj r) => exists ro, h1 !! r = Some ro /\ klass ro = GeoSeries_cls
  | _ => True
  end ->
  GeoSeries._wrapped_pandas_method self mtd h = (res, h1).
Proof.
  intros Hm Hres. unfold GeoSeries._wrapped_pandas_method.
  destruct res as [[v|r]|e].
  - rewrite (bind_ret _ _ _ _ _ Hm). reflexivity.
  - destruct Hres as (ro & Hr & Hk).
    rewrite (bind_ret _ _ _ _ _ Hm).
    rewrite (bind_ret _ _ _ _ _ (load_here h1 r ro Hr)). rewrite Hk.
    reflexivity.
  - apply (bind_raise _ _ _ _ _ Hm).
Qed.

(** Anything else goes through the wrapper as it is: a scalar, an object
    that is a GeoSeries already, and an exception of the method. *)
Theorem wrapped_result_is_passed_through
        (h h1 : heap) (self : loc) (res : outcome pyres) (mtd : loc -> Py pyres) :
  mtd self h = (res, h1) ->
  match res with
  | Ret (RObj r) => exists ro, h1 !! r = Some ro /\ klass ro = GeoSeries_cls
  | _ => True
  end ->
  GeoSeries._wrapped_pandas_method self mtd h = (res, h1).
Proof. apply wrapped_pass. Qed.

End Wrapper.

(** ** Reprojection: errors and round trip *)

Section ReprojectionMore.
Context `{Pyproj} `{PandasIndex}.

(** With a [crs] on the receiver and no descriptor for the destination,
    [to_crs] raises [TypeError] when no code is given either, and the
    [ValueError] of [from_epsg] when the code is not positive; the heap is
    as it was. *)
Theorem to_crs_without_destination_raises
        (h : heap) (s : loc) (o : series) (c : crs_t) (epsg : option Z) :
  h !! s = Some o ->
  crs o = Some c ->
  match epsg with Some code => code <= 0 | None => True end ->
  GeoSeries.to_crs s None epsg h =
  (Raise match epsg with Some _ => ValueError | None => TypeError end, h).
Proof.
  intros Hs Hc Hcode. unfold GeoSeries.to_crs.
  rewrite (bind_ret _ _ _ _ _ (load_here h s o Hs)). rewrite Hc.
  destruct epsg as [code|]; simpl.
  - destruct (Z.leb_spec code 0); [reflexivity|lia].
  - reflexivity.
Qed.

(** A reference system that [Proj] does not resolve, on the receiver or as
    the destination, makes [to_crs] raise the exception of [Proj]; the heap
    is as it was. *)
Theorem to_crs_unresolved_system_raises
        (h : heap) (s : loc) (o : series) (crs' : option crs_t)
        (epsg : option Z) (c d : crs_t) (e : exn) :
  h !! s = Some o ->
  crs o = Some c ->
  destination crs' epsg = Ret d ->
  Proj c = Raise e \/ (exists p, Proj c = Ret p) /\ Proj d = Raise e ->
  GeoSeries.to_crs s crs' epsg h = (Raise e, h).
Proof.
  intros Hs Hc Hdst Hproj. unfold GeoSeries.to_crs.
  rewrite (bind_ret _ _ _ _ _ (load_here h s o Hs)). rewrite Hc.
  rewrite (bind_ret _ _ h h d).
  2:{ unfold destination in Hdst. destruct crs' as [c'|].
      - injection Hdst as ->. reflexivity.
      - rewrite Hdst. reflexivity. }
  unfold lift. unfold bind at 1.
  destruct Hproj as [Hin|[[p Hin] Hout]]; rewrite Hin; [reflexivity|].
  unfold bind at 1. rewrite Hout. reflexivity.
Qed.

Lemma mapM_raise {A B} (f : A -> outcome B) (l : list A) (e : exn) :
  (forall x y, f x = Raise y -> y = e) ->
  Exists (fun x => exists y, f x = Raise y) l ->
  pandas.mapM f l = Raise e.
Proof.
  intros Hf. induction 1 as [x l (y & Hx)|x l _ IH]; simpl.
  - rewrite Hx. f_equal. exact (Hf _ _ Hx).
  - destruct (f x) as [b|y] eqn:Hx.
    + rewrite IH. reflexivity.
    + f_equal. exact (Hf _ _ Hx).
Qed.


End ReprojectionMore.

Section RoundTrip.
Context `{Pyproj} `{PandasIndex}.




End RoundTrip.

(** ** Filling: the class of the result, and filling in place *)

Section FillMore.
Context `{Pyproj} `{PandasIndex}.

Lemma filled_not_missing (value : pyval) (g : geometry) (vs : list pyval) :
  fill_with value = PGeom g ->
  Forall (fun v => pandas.isna v = false) (map (filled value) vs).
Proof.
  intros Hg. apply Forall_map, Forall_forall. intros v _. unfold filled.
  destruct (pandas.isna v) eqn:E; [rewrite Hg; reflexivity|exact E].
Qed.

(** Filling with a geometry, or with no value given, returns a new
    Geometry Sequence with the [crs], the name and the labels of the
    receiver, no missing value left in it and no cached spatial index; the
    receiver is as it was. *)
Theorem fillna_with_geometry_keeps_metadata
        (h : heap) (s : loc) (o : series) (value : pyval) (g : geometry) :
  GeometrySequence h s o ->
  fill_with value = PGeom g ->
  exists (r : loc) (h' : heap) (fo : series),
    GeoSeries.fillna s value false h = (Ret (RObj r), h') /\
    h !! r = None /\
    h' !! s = Some o /\
    GeometrySequence h' r fo /\
    crs fo = crs o /\
    name fo = name o /\
    index fo = index o /\
    values fo = map (filled value) (values o) /\
    Forall (fun v => pandas.isna v = false) (values fo) /\
    _sindex fo = None /\
    _sindex_generated fo = false.
Proof.
  intros [Hs Hk Hd Hlen Hv] Hg.
  destruct (pandas_fillna_new h s o _ Hs Hlen (fill_with_not_None value))
    as (r & h' & E & Hpre & Hnew & Hr).
  assert (Hvalid : valid (map (filled value) (values o)) = true).
  { unfold filled. rewrite Hg. apply filled_valid, Hv. }
  assert (Hfo : finalized (klass o) (dtype_of o)
                  (map (fun v => if pandas.isna v then fill_with value else v)
                       (values o)) (index o) o
                = geo (map (filled value) (values o)) (index o) (name o) (crs o)).
  { unfold finalized, gives_geoseries. rewrite Hk, Hd. simpl.
    fold (filled value). rewrite Hvalid. reflexivity. }
  rewrite Hfo in Hr.
  exists r, h', (geo (map (filled value) (values o)) (index o) (name o) (crs o)).
  split; [exact E|]. split_and!; try reflexivity.
  - exact Hnew.
  - apply (prefix_lookup_Some _ _ _ _ Hs Hpre).
  - apply geo_is_gs; [exact Hr| |exact Hvalid].
    rewrite length_map. exact Hlen.
  - apply (filled_not_missing value g), Hg.
Qed.

(** Filling a missing value with something that is neither a geometry nor
    a missing value returns a plain Series: it has the filled values, the
    labels and the name of the receiver, and no [crs]. *)
Theorem fillna_with_other_value_gives_plain_series
        (h : heap) (s : loc) (o : series) (value : pyval) :
  GeometrySequence h s o ->
  foreign value = true ->
  existsb pandas.isna (values o) = true ->
  exists (r : loc) (h' : heap) (fo : series),
    GeoSeries.fillna s value false h = (Ret (RObj r), h') /\
    h !! r = None /\
    h' !! s = Some o /\
    h' !! r = Some fo /\
    klass fo = Series_cls /\
    crs fo = None /\
    name fo = name o /\
    index fo = index o /\
    values fo = map (filled value) (values o).
Proof.
  intros [Hs Hk Hd Hlen Hv] Hf Hmiss.
  destruct (pandas_fillna_new h s o _ Hs Hlen (fill_with_not_None value))
    as (r & h' & E & Hpre & Hnew & Hr).
  assert (Hfw : fill_with value = value).
  { destruct value; try reflexivity. discriminate. }
  assert (Hinvalid : valid (map (filled value) (values o)) = false).
  { rewrite valid_foreign. apply negb_false_iff, existsb_exists.
    apply existsb_exists in Hmiss as (v & Hin & Hna).
    exists (filled value v). split.
    - apply in_map. exact Hin.
    - unfold filled. rewrite Hna, Hfw. exact Hf. }
  assert (Hfo : finalized (klass o) (dtype_of o)
                  (map (fun v => if pandas.isna v then fill_with value else v)
                       (values o)) (index o) o
                = plain (map (filled value) (values o)) (index o) (name o)
                        dt_object).
  { unfold finalized, gives_geoseries. rewrite Hk, Hd. simpl.
    fold (filled value). rewrite Hinvalid. reflexivity. }
  rewrite Hfo in Hr.
  eexists r, h', _. split; [exact E|].
  split_and!; [exact Hnew| |exact Hr|..]; try reflexivity.
  apply (prefix_lookup_Some _ _ _ _ Hs Hpre).
Qed.


End FillMore.

(** ** [notna] *)

Section Available.
Context `{Pyproj} `{PandasIndex}.

Lemma infer_bools (p : pyval -> bool) (vs : list pyval) :
  vs <> [] -> pandas.infer_dtype (map (fun v => PBool (p v)) vs) = dt_bool.
Proof.
  destruct vs as [|v vs]; [congruence|]. intros _. simpl.
  assert (Hb : forallb pandas.is_bool (map (fun v => PBool (p v)) vs) = true).
  { induction vs as [|w vs IH]; simpl; [reflexivity|exact IH]. }
  rewrite Hb. reflexivity.
Qed.

Lemma invert_bools (bs : list bool) :
  pandas.mapM (pandas.invert_value dt_bool) (map PBool bs)
  = Ret (map PBool (map negb bs)).
Proof.
  induction bs as [|b bs IH]; simpl; [reflexivity|]. rewrite IH. reflexivity.
Qed.

(** The Series [isna] returns, with its dtype: booleans, unless the
    receiver is empty. *)
Lemma isna_result (h : heap) (s : loc) (o : series) :
  GeometrySequence h s o ->
  exists (r : loc) (h' : heap) (nm : option string) (dt : dtype),
    GeoSeries.isna s h = (Ret r, h') /\
    h `prefix_of` h' /\
    h !! r = None /\
    h' !! r = Some (plain (map (fun v => PBool (unavailable v)) (values o))
                          (index o) nm dt) /\
    (values o <> [] -> dt = dt_bool).
Proof.
  intros [Hs Hk Hd Hlen Hv].
  set (isn := map (fun v => PBool (pandas.isna v)) (values o)).
  set (emp := map (fun v => PBool (_is_empty v)) (values o)).
  set (una := map (fun v => PBool (unavailable v)) (values o)).
  set (dte := match values o with
              | [] => dtype_of o
              | _ => pandas.infer_dtype emp
              end).
  (* isnull *)
  destruct (construct_finalize h s o (klass o) dt_bool isn (index o) Hs)
    as (n & h1 & E1 & P1 & _ & Hn).
  { unfold isn. rewrite length_map. exact Hlen. }
  pose proof (prefix_lookup_Some _ _ _ _ Hs P1) as Hs1.
  (* apply *)
  destruct (construct_finalize h1 s o (klass o) dte emp (index o) Hs1)
    as (e & h2 & E2 & P2 & _ & He).
  { unfold emp. rewrite length_map. exact Hlen. }
  pose proof (prefix_lookup_Some _ _ _ _ Hn P2) as Hn2.
  set (no := finalized (klass o) dt_bool isn (index o) o) in *.
  set (eo := finalized (klass o) dte emp (index o) o) in *.
  set (dtu := if dtype_eqb (dtype_of no) dt_object
                 || dtype_eqb (dtype_of eo) dt_object
              then dt_object else dt_bool).
  (* logical_or *)
  destruct (construct_finalize h2 n no (klass no) dtu una (index no) Hn2)
    as (u & h3 & E3 & P3 & _ & Hu).
  { unfold no, una. rewrite finalized_index, length_map. exact Hlen. }
  set (uo := finalized (klass no) dtu una (index no) no) in *.
  assert (Huv : values uo = una) by apply finalized_values.
  assert (Hui : index uo = index o).
  { unfold uo. rewrite finalized_index. apply finalized_index. }
  exists (length h3), (h3 ++ [plain una (index o) (name uo) (dtype_of uo)]),
    (name uo), (dtype_of uo).
  split; [|split_and!].
  - unfold GeoSeries.isna.
    rewrite (bind_ret _ _ h h1 n).
    2:{ unfold pandas.isnull.
        rewrite (bind_ret _ _ _ _ _ (load_here h s o Hs)). exact E1. }
    rewrite (bind_ret _ _ h1 h2 e).
    2:{ unfold pandas.apply.
        rewrite (bind_ret _ _ _ _ _ (load_here h1 s o Hs1)).
        unfold dte, emp in E2. destruct (values o) as [|v vs]; [exact E2|].
        unfold lift. unfold bind at 1.
        rewrite (mapM_Ret _ (fun x => PBool (_is_empty x)) (v :: vs));
          [exact E2|].
        apply Forall_forall. intros x _. reflexivity. }
    rewrite (bind_ret _ _ h2 h3 u).
    2:{ unfold pandas.logical_or.
        rewrite (bind_ret _ _ _ _ _ (load_here h2 n no Hn2)).
        rewrite (bind_ret _ _ _ _ _ (load_here h2 e eo He)).
        unfold lift. unfold bind at 1.
        unfold no at 1, eo at 1. rewrite !finalized_values.
        unfold isn, emp. rewrite logical_or_bools. exact E3. }
    rewrite (bind_ret _ _ _ _ _ (load_here h3 u uo Hu)).
    rewrite Huv, Hui.
    apply (Series_eq _ (Some (index o))), sanitize_array.
    unfold una. rewrite length_map. exact Hlen.
  - etrans; [exact P1|]. etrans; [exact P2|]. etrans; [exact P3|].
    apply prefix_app_r. reflexivity.
  - apply lookup_ge_None.
    pose proof (prefix_length _ _ P1). pose proof (prefix_length _ _ P2).
    pose proof (prefix_length _ _ P3). lia.
  - apply lookup_snoc.
  - intros Hne.
    assert (Hidx : index o <> []).
    { intros E. rewrite E in Hlen. apply nil_length_inv in Hlen. congruence. }
    assert (Hno : no = plain isn (index o) (name o) dt_bool).
    { unfold no, finalized, gives_geoseries. rewrite Hk. simpl.
      destruct (index o); [congruence|reflexivity]. }
    assert (Hdte : dte = dt_bool).
    { unfold dte, emp. destruct (values o) as [|v vs] eqn:Ev; [congruence|].
      apply infer_bools. discriminate. }
    assert (Heo : eo = plain emp (index o) (name o) dt_bool).
    { unfold eo, finalized, gives_geoseries. rewrite Hk, Hdte. simpl.
      destruct (index o); [congruence|reflexivity]. }
    unfold uo, dtu. rewrite Hno, Heo. reflexivity.
Qed.

(** [notna] on a Geometry Sequence returns a new plain Series with the
    labels of the receiver whose boolean at each position is the negation
    of the one of [isna]: true exactly when the element is not a missing
    value and is not a geometry whose emptiness query answers true. *)
Theorem notna_negates_isna (h : heap) (s : loc) (o : series) :
  GeometrySequence h s o ->
  exists (r : loc) (h' : heap) (ro : series),
    GeoSeries.notna s h = (Ret r, h') /\
    h `prefix_of` h' /\
    h !! r = None /\
    h' !! r = Some ro /\
    klass ro = Series_cls /\
    index ro = index o /\
    length (values ro) = length (values o) /\
    (forall i v, values o !! i = Some v ->
       exists b : bool,
         values ro !! i = Some (PBool (negb b)) /\
         (b = true <->
          pandas.isna v = true \/
          exists g, v = PGeom g /\ is_empty g = Ret true)).
Proof.
  intros Hgs. pose proof Hgs as [Hs Hk Hd Hlen Hv].
  destruct (isna_result h s o Hgs) as (n & h1 & nm & dt & E1 & P1 & N1 & Hn & Hdt).
  set (una := map (fun v => PBool (unavailable v)) (values o)) in *.
  set (ava := map (fun v => PBool (negb (unavailable v))) (values o)).
  assert (Hinv : pandas.mapM (pandas.invert_value dt) una = Ret ava).
  { unfold una, ava. destruct (values o) as [|v vs] eqn:Ev; [reflexivity|].
    rewrite Hdt by discriminate.
    rewrite <- (map_map unavailable PBool), invert_bools, !map_map.
    reflexivity. }
  destruct (construct_finalize h1 n _ Series_cls dt ava (index o) Hn)
    as (r & h2 & E2 & P2 & N2 & Hr).
  { unfold ava. rewrite length_map. exact Hlen. }
  exists r, h2, (plain ava (index o) nm dt).
  split; [|split_and!; try reflexivity].
  - unfold GeoSeries.notna. rewrite (bind_ret _ _ _ _ _ E1).
    unfold pandas.__invert__.
    rewrite (bind_ret _ _ _ _ _ (load_here h1 n _ Hn)).
    cbn [plain dtype_of values klass index].
    unfold lift. unfold bind at 1. fold una. rewrite Hinv. exact E2.
  - etrans; [exact P1|exact P2].
  - destruct (h !! r) eqn:X; [|reflexivity].
    rewrite (prefix_lookup_Some _ _ _ _ X P1) in N2. discriminate.
  - exact Hr.
  - simpl. unfold ava. rewrite length_map. reflexivity.
  - intros i v Hi. exists (unavailable v). split.
    + simpl. unfold ava. rewrite list_lookup_fmap, Hi. reflexivity.
    + apply unavailable_iff.
Qed.

End Available.

(** ** Indexing, taking and sorting: edges *)

Section SelectionMore.
Context `{Pyproj} `{PandasIndex}.

Lemma get_loc_absent (k : Z) (idx : list Z) :
  k ∉ idx -> pandas.get_loc k idx = [].
Proof.
  intros Hk. unfold pandas.get_loc.
  destruct (filter _ (imap pair idx)) as [|x xs] eqn:E; [reflexivity|].
  assert (Hx : x ∈ filter (fun p : nat * Z => bool_decide (p.2 = k))
                          (imap pair idx)).
  { rewrite E. apply list_elem_of_here. }
  apply list_elem_of_filter in Hx as [Hp Hx].
  apply elem_of_lookup_imap_1 in Hx as (i & y & -> & Hi).
  apply Is_true_true, bool_decide_eq_true in Hp. simpl in Hp. subst y.
  exfalso. apply Hk, list_elem_of_lookup. exists i. exact Hi.
Qed.

Lemma filter_label_absent (k : Z) (F : nat -> Z -> nat * Z) (l : list Z) :
  (forall i x, (F i x).2 = x) ->
  k ∉ l ->
  filter (fun p : nat * Z => bool_decide (p.2 = k)) (imap F l) = [].
Proof.
  revert F. induction l as [|x l IH]; intros F HF Hk; [reflexivity|].
  rewrite imap_cons. rewrite filter_cons_False.
  - apply IH; [intros i y; apply HF|].
    intros Hin. apply Hk. right. exact Hin.
  - rewrite HF. intros Hp. apply Is_true_true, bool_decide_eq_true in Hp.
    apply Hk. subst x. left.
Qed.

Lemma filter_label_once (k : Z) (F : nat -> Z -> nat * Z) (l1 l2 : list Z) :
  (forall i x, (F i x).2 = x) ->
  k ∉ l1 -> k ∉ l2 ->
  filter (fun p : nat * Z => bool_decide (p.2 = k)) (imap F (l1 ++ k :: l2))
  = [F (length l1) k].
Proof.
  revert F. induction l1 as [|x l1 IH]; intros F HF H1' H2'.
  - simpl app. rewrite imap_cons. rewrite filter_cons_True.
    + rewrite (filter_label_absent k (F ∘ S) l2); [reflexivity| |exact H2'].
      intros i y. apply HF.
    + rewrite HF. apply Is_true_true, bool_decide_eq_true. reflexivity.
  - simpl app. rewrite imap_cons. rewrite filter_cons_False.
    + rewrite (IH (F ∘ S)); [reflexivity| | |exact H2'].
      * intros i y. apply HF.
      * intros Hin. apply H1'. right. exact Hin.
    + rewrite HF. intros Hp. apply Is_true_true, bool_decide_eq_true in Hp.
      apply H1'. subst x. left.
Qed.

(** Indexing by a label that does not occur raises [KeyError] and makes
    no object. *)
Theorem getitem_absent_label_raises
        (h : heap) (s : loc) (o : series) (k : Z) :
  h !! s = Some o ->
  k ∉ index o ->
  GeoSeries.__getitem__ s (KLabel k) h = (Raise KeyError, h).
Proof.
  intros Hs Hout.
  apply (wrapped_pass h h s (Raise KeyError)); [|exact I].
  unfold pandas.__getitem__.
  rewrite (bind_ret _ _ _ _ _ (load_here h s o Hs)).
  rewrite (get_loc_absent k _ Hout). reflexivity.
Qed.

(** Indexing a Geometry Sequence by a label that occurs once returns the
    element at the position of that label itself, not a Series, and makes
    no object. *)
Theorem getitem_unique_label_gives_element
        (h : heap) (s : loc) (o : series) (k : Z) (l1 l2 : list Z) :
  GeometrySequence h s o ->
  index o = l1 ++ k :: l2 ->
  k ∉ l1 ->
  k ∉ l2 ->
  exists v : pyval,
    values o !! length l1 = Some v /\
    GeoSeries.__getitem__ s (KLabel k) h = (Ret (RVal v), h).
Proof.
  intros [Hs Hk Hd Hlen Hv] E H1' H2'.
  destruct (lookup_lt_is_Some_2 (values o) (length l1)) as [v Hv1].
  { rewrite Hlen, E, length_app. simpl. lia. }
  exists v. split; [exact Hv1|].
  apply (wrapped_pass h h s (Ret (RVal v))); [|exact I].
  unfold pandas.__getitem__.
  rewrite (bind_ret _ _ _ _ _ (load_here h s o Hs)).
  unfold pandas.get_loc. rewrite E.
  rewrite (filter_label_once k pair l1 l2 (fun _ _ => eq_refl) H1' H2').
  cbn [map fst]. rewrite Hv1. reflexivity.
Qed.

(** [take] with an index outside the bounds raises [IndexError] and makes
    no object. *)
Theorem take_out_of_bounds_raises
        (h : heap) (s : loc) (o : series) (indices : list Z) :
  h !! s = Some o ->
  Exists (fun i => i < - Z.of_nat (length (index o))
                   \/ Z.of_nat (length (index o)) <= i) indices ->
  GeoSeries.take s indices h = (Raise IndexError, h).
Proof.
  intros Hs Hex.
  apply (wrapped_pass h h s (Raise IndexError)); [|exact I].
  unfold pandas.take.
  rewrite (bind_ret _ _ _ _ _ (load_here h s o Hs)).
  unfold lift. unfold bind at 1.
  rewrite (mapM_raise _ indices IndexError); [reflexivity| |].
  - intros i y. unfold pandas.take_position.
    destruct (_ && _); [discriminate|congruence].
  - eapply Exists_impl; [exact Hex|]. intros i Hi. cbv beta in Hi.
    exists IndexError. unfold pandas.take_position.
    destruct (Z.leb_spec (- Z.of_nat (length (index o))) i);
      destruct (Z.ltb_spec i (Z.of_nat (length (index o))));
      simpl; try reflexivity; lia.
Qed.





End SelectionMore.

(** ** [isna] after [fillna] *)

Section FillThenTest.
Context `{Pyproj} `{PandasIndex}.

Lemma unavailable_filled (v : pyval) :
  unavailable (filled PNone v) = unavailable v.
Proof.
  unfold filled. destruct (pandas.isna v) eqn:E; [|reflexivity].
  unfold unavailable at 2. rewrite E. simpl.
  unfold unavailable, _is_empty. simpl. rewrite BaseGeometry_is_empty.
  reflexivity.
Qed.

(** Filling with no value given does not change what [isna] reports: the
    empty geometry that replaces a missing value is unavailable too, so
    [isna] of the filled Series has, position by position, the booleans of
    [isna] of the receiver. *)
Theorem isna_unchanged_by_default_fillna (h : heap) (s : loc) (o : series) :
  GeometrySequence h s o ->
  exists (r q : loc) (h1 h2 : heap) (nm : option string) (dt : dtype),
    GeoSeries.fillna s PNone false h = (Ret (RObj r), h1) /\
    GeoSeries.isna r h1 = (Ret q, h2) /\
    h2 !! q = Some (plain (map (fun v => PBool (unavailable v)) (values o))
                          (index o) nm dt).
Proof.
  intros [Hs Hk Hd Hlen Hv].
  destruct (pandas_fillna_new h s o _ Hs Hlen (fill_with_not_None PNone))
    as (r & h1 & E & Hpre & Hnew & Hr).
  assert (Hvalid : valid (map (filled PNone) (values o)) = true).
  { apply (filled_valid BaseGeometry), Hv. }
  assert (Hfo : finalized (klass o) (dtype_of o)
                  (map (fun v => if pandas.isna v then fill_with PNone else v)
                       (values o)) (index o) o
                = geo (map (filled PNone) (values o)) (index o) (name o) (crs o)).
  { change (map (fun v => if pandas.isna v then fill_with PNone else v)
                (values o)) with (map (filled PNone) (values o)).
    unfold finalized, gives_geoseries. rewrite Hk, Hd.
    cbn [dtype_eqb]. rewrite Hvalid. reflexivity. }
  rewrite Hfo in Hr.
  assert (Hgs1 : GeometrySequence h1 r
                   (geo (map (filled PNone) (values o)) (index o) (name o) (crs o))).
  { apply geo_is_gs; [exact Hr| |exact Hvalid]. rewrite length_map. exact Hlen. }
  destruct (isna_result h1 r _ Hgs1) as (q & h2 & nm & dt & E2 & _ & _ & Hq & _).
  exists r, q, h1, h2, nm, dt. split; [exact E|]. split; [exact E2|].
  rewrite Hq. simpl. rewrite map_map.
  rewrite (map_ext (fun x => PBool (unavailable (filled PNone x)))
             (fun v => PBool (unavailable v))); [reflexivity|].
  intros v. rewrite unavailable_filled. reflexivity.
Qed.

End FillThenTest.

(** ** The further statements on the instance *)

(** A GeoSeries that holds an integer, as [append] can leave one, with a
    spatial index in its cache. *)
Definition unchecked : series :=
  set_sindex (Some [0%nat; 1%nat]) true
    (geo [shape_val (Toy.Point 0 0); PInt 1] [0; 1] None
         (Some (Toy.Named "EPSG:4326"))).


Ltac not_in_list :=
  repeat (apply not_elem_of_cons; split; [discriminate|]); apply not_elem_of_nil.

Lemma new_valid_data_is_geometry_sequence_witness :
  exists (s : nat) (h' : list series) (o : series),
    GeoSeries.__new__ (DList [shape_val (Toy.Point 0 0); PNone]) None
                      (Some (Toy.Named "EPSG:4326")) (Some "g") sample_heap
    = (Ret s, h') /\
    sample_heap `prefix_of` h' /\
    sample_heap !! s = None /\
    GeometrySequence h' s o /\
    values o = [shape_val (Toy.Point 0 0); PNone] /\
    index o = labels_of [shape_val (Toy.Point 0 0); PNone] None /\
    crs o = Some (Toy.Named "EPSG:4326") /\
    name o = Some "g" /\
    _sindex o = None /\
    _sindex_generated o = false.
Proof.
  apply new_valid_data_is_geometry_sequence.
  - reflexivity.
  - reflexivity.
  - exact I.
Defined.



Lemma wrapped_series_is_retagged_witness :
  GeoSeries._wrapped_pandas_method 0%nat
    (fun s => pandas.__getitem__ GeoSeries._constructor GeoSeries.v__finalize__
                s (KSlice None None)) [unchecked]
  = (Ret (RObj 1%nat),
     <[1%nat := geo [shape_val (Toy.Point 0 0); PInt 1] [0; 1] None
                    (Some (Toy.Named "EPSG:4326"))]>
       [unchecked;
        plain [shape_val (Toy.Point 0 0); PInt 1] [0; 1] None dt_object]).
Proof.
  apply (wrapped_series_is_retagged [unchecked]
           [unchecked;
            plain [shape_val (Toy.Point 0 0); PInt 1] [0; 1] None dt_object]
           0%nat 1%nat unchecked
           (plain [shape_val (Toy.Point 0 0); PInt 1] [0; 1] None dt_object));
    reflexivity.
Defined.

Lemma wrapped_result_is_passed_through_witness :
  GeoSeries._wrapped_pandas_method 1%nat
    (fun s => pandas.__getitem__ GeoSeries._constructor GeoSeries.v__finalize__
                s (KLabel 3)) sample_heap
  = (Ret (RVal (shape_val (Toy.Point 0 0))), sample_heap).
Proof.
  apply (wrapped_result_is_passed_through sample_heap sample_heap 1%nat
           (Ret (RVal (shape_val (Toy.Point 0 0))))).
  - reflexivity.
  - exact I.
Defined.

Lemma to_crs_without_destination_raises_witness :
  GeoSeries.to_crs 0%nat None (Some 0) sample_heap = (Raise ValueError, sample_heap).
Proof.
  apply (to_crs_without_destination_raises sample_heap 0%nat wgs_points
           (Toy.Named "EPSG:4326") (Some 0)).
  - reflexivity.
  - reflexivity.
  - simpl. lia.
Defined.

Lemma to_crs_unresolved_system_raises_witness :
  GeoSeries.to_crs 0%nat (Some (Toy.Named "nowhere")) None sample_heap
  = (Raise ValueError, sample_heap).
Proof.
  apply (to_crs_unresolved_system_raises sample_heap 0%nat wgs_points
           (Some (Toy.Named "nowhere")) None
           (Toy.Named "EPSG:4326") (Toy.Named "nowhere") ValueError).
  - reflexivity.
  - reflexivity.
  - reflexivity.
  - right. split; [exists 4326; reflexivity|reflexivity].
Defined.



Lemma fillna_with_geometry_keeps_metadata_witness :
  exists (r : nat) (h' : list series) (fo : series),
    GeoSeries.fillna 1%nat PNone false sample_heap = (Ret (RObj r), h') /\
    sample_heap !! r = None /\
    h' !! 1%nat = Some mixed /\
    GeometrySequence h' r fo /\
    crs fo = crs mixed /\
    name fo = name mixed /\
    index fo = index mixed /\
    values fo = map (filled PNone) (values mixed) /\
    Forall (fun v => pandas.isna v = false) (values fo) /\
    _sindex fo = None /\
    _sindex_generated fo = false.
Proof.
  apply (fillna_with_geometry_keeps_metadata sample_heap 1%nat mixed PNone
           BaseGeometry mixed_gs).
  reflexivity.
Defined.

Lemma fillna_with_other_value_gives_plain_series_witness :
  exists (r : nat) (h' : list series) (fo : series),
    GeoSeries.fillna 1%nat (PInt 0) false sample_heap = (Ret (RObj r), h') /\
    sample_heap !! r = None /\
    h' !! 1%nat = Some mixed /\
    h' !! r = Some fo /\
    klass fo = Series_cls /\
    crs fo = None /\
    name fo = name mixed /\
    index fo = index mixed /\
    values fo = map (filled (PInt 0)) (values mixed).
Proof.
  apply (fillna_with_other_value_gives_plain_series sample_heap 1%nat mixed
           (PInt 0) mixed_gs); reflexivity.
Defined.


Lemma notna_negates_isna_witness :
  exists (r : nat) (h' : list series) (ro : series),
    GeoSeries.notna 1%nat sample_heap = (Ret r, h') /\
    sample_heap `prefix_of` h' /\
    sample_heap !! r = None /\
    h' !! r = Some ro /\
    klass ro = Series_cls /\
    index ro = index mixed /\
    length (values ro) = length (values mixed) /\
    (forall i v, values mixed !! i = Some v ->
       exists b : bool,
         values ro !! i = Some (PBool (negb b)) /\
         (b = true <->
          pandas.isna v = true \/
          exists g, v = PGeom g /\ is_empty g = Ret true)).
Proof. apply (notna_negates_isna sample_heap 1%nat mixed mixed_gs). Defined.

Lemma getitem_absent_label_raises_witness :
  GeoSeries.__getitem__ 1%nat (KLabel 9) sample_heap = (Raise KeyError, sample_heap).
Proof.
  apply (getitem_absent_label_raises sample_heap 1%nat mixed 9).
  - reflexivity.
  - simpl. not_in_list.
Defined.

Lemma getitem_unique_label_gives_element_witness :
  exists v : pyval,
    values mixed !! length [3] = Some v /\
    GeoSeries.__getitem__ 1%nat (KLabel 1) sample_heap = (Ret (RVal v), sample_heap).
Proof.
  apply (getitem_unique_label_gives_element sample_heap 1%nat mixed 1 [3] [2; 5]
           mixed_gs).
  - reflexivity.
  - not_in_list.
  - not_in_list.
Defined.

Lemma take_out_of_bounds_raises_witness :
  GeoSeries.take 1%nat [0; 7] sample_heap = (Raise IndexError, sample_heap).
Proof.
  apply (take_out_of_bounds_raises sample_heap 1%nat mixed [0; 7]).
  - reflexivity.
  - apply Exists_cons_tl, Exists_cons_hd. right. simpl. lia.
Defined.


Lemma isna_unchanged_by_default_fillna_witness :
  exists (r q : nat) (h1 h2 : list series) (nm : option string) (dt : dtype),
    GeoSeries.fillna 1%nat PNone false sample_heap = (Ret (RObj r), h1) /\
    GeoSeries.isna r h1 = (Ret q, h2) /\
    h2 !! q = Some (plain (map (fun v => PBool (unavailable v)) (values mixed))
                          (index mixed) nm dt).
Proof.
  apply (isna_unchanged_by_default_fillna sample_heap 1%nat mixed mixed_gs).
Defined.
